(** * EFP Wealth: equity-curve analytics

    A shallow embedding of the analytics computed by [generate_site_data.py]
    and [generate_landing.py], and the properties of it that the
    specification states.

    Both scripts are straight-line pandas/numpy code over two columns of a
    date-indexed table.  The embedding follows the scripts line by line:

    - a numpy [float64] is a value of [fl]: a real number, an infinity or NaN.
      Arithmetic on finite values is exact real arithmetic (rounding,
      overflow and the sign of zero are not modelled); the special values
      follow IEEE 754, which is what decides [dropna], the comparisons with
      NaN and the guarded divisions of the scripts.  Where rounding decides
      a branch of the code (a variance that is 0 on the reals and a tiny
      positive number on floats), the module [F64] runs the same arithmetic
      on binary64 floats;
    - a pandas [Series] is a list of (day number, value) pairs in index
      order, a date being the number of days since 1970-01-01; the index is
      taken to be in increasing order, as the table is read from a CSV
      sorted by date;
    - a Python exception is a value of [exn] in the error monad [result];
    - the one behaviour of pandas that depends on its version, the filling
      of gaps by [pct_change], is the parameter [pad] of the functions that
      call it.

    Reading the CSV, writing the JSON and the HTML are not modelled. *)

From Stdlib Require Import Floats.
From Stdlib Require Import Ascii String.
From Stdlib Require Import Reals Lra Lia ZArith List Bool Psatz Sorted.
Import ListNotations.

Open Scope R_scope.

(** ** float64 values *)

Inductive fl : Type :=
| Fin (x : R)
| PInf
| NInf
| NaN.

Definition Rltb (x y : R) : bool := if Rlt_dec x y then true else false.
Definition Reqb (x y : R) : bool := if Req_dec_T x y then true else false.

Definition isnan (a : fl) : bool :=
  match a with NaN => true | _ => false end.

Definition fneg (a : fl) : fl :=
  match a with
  | Fin x => Fin (- x)
  | PInf => NInf
  | NInf => PInf
  | NaN => NaN
  end.

Definition fadd (a b : fl) : fl :=
  match a, b with
  | NaN, _ | _, NaN => NaN
  | Fin x, Fin y => Fin (x + y)
  | PInf, NInf | NInf, PInf => NaN
  | PInf, _ | _, PInf => PInf
  | NInf, _ | _, NInf => NInf
  end.

Definition fsub (a b : fl) : fl := fadd a (fneg b).

(** The infinity of the sign of [x], for [x] nonzero. *)
Definition inf_of_sign (x : R) : fl := if Rltb 0 x then PInf else NInf.

Definition fmul (a b : fl) : fl :=
  match a, b with
  | NaN, _ | _, NaN => NaN
  | Fin x, Fin y => Fin (x * y)
  | Fin x, PInf | PInf, Fin x => if Reqb x 0 then NaN else inf_of_sign x
  | Fin x, NInf | NInf, Fin x => if Reqb x 0 then NaN else inf_of_sign (- x)
  | PInf, PInf | NInf, NInf => PInf
  | PInf, NInf | NInf, PInf => NInf
  end.

(** numpy division: a zero divisor gives an infinity, or NaN for 0/0, and
    never raises. *)
Definition fdiv (a b : fl) : fl :=
  match a, b with
  | NaN, _ | _, NaN => NaN
  | Fin x, Fin y =>
      if Reqb y 0 then (if Reqb x 0 then NaN else inf_of_sign x)
      else Fin (x / y)
  | Fin _, (PInf | NInf) => Fin 0
  | PInf, Fin y => if Rltb y 0 then NInf else PInf
  | NInf, Fin y => if Rltb y 0 then PInf else NInf
  | (PInf | NInf), (PInf | NInf) => NaN
  end.

Definition fabs (a : fl) : fl :=
  match a with
  | Fin x => Fin (Rabs x)
  | PInf | NInf => PInf
  | NaN => NaN
  end.

(** [a < b]; false as soon as one side is NaN. *)
Definition flt (a b : fl) : bool :=
  match a, b with
  | NaN, _ | _, NaN => false
  | Fin x, Fin y => Rltb x y
  | _, NInf => false
  | NInf, _ => true
  | PInf, _ => false
  | _, PInf => true
  end.

Definition fgt (a b : fl) : bool := flt b a.

(** [a == b] and [a != b]; NaN differs from everything, itself included. *)
Definition feq (a b : fl) : bool :=
  match a, b with
  | Fin x, Fin y => Reqb x y
  | PInf, PInf | NInf, NInf => true
  | _, _ => false
  end.

Definition fne (a b : fl) : bool := negb (feq a b).

Definition fsqrt (a : fl) : fl :=
  match a with
  | Fin x => if Rltb x 0 then NaN else Fin (sqrt x)
  | PInf => PInf
  | NInf | NaN => NaN
  end.

(** [np.maximum]-style and [np.minimum]-style choice between two values
    neither of which is NaN. *)
Definition fmax (a b : fl) : fl := if flt a b then b else a.
Definition fmin (a b : fl) : fl := if flt b a then b else a.

(** [a ** e] for a float64 [a] and a finite exponent [e] (C [pow]): a
    negative base has a real power at integer exponents only. *)
Definition is_int (e : R) : bool := Reqb e (IZR (Int_part e)).

Definition fpow (a : fl) (e : R) : fl :=
  if Reqb e 0 then Fin 1 else
  match a with
  | NaN => NaN
  | Fin x =>
      if Rltb 0 x then Fin (Rpower x e)
      else if Reqb x 0 then (if Rltb 0 e then Fin 0 else PInf)
      else if is_int e then Fin (powerRZ x (Int_part e))
      else NaN
  | PInf => if Rltb 0 e then PInf else Fin 0
  | NInf =>
      if Rltb 0 e
      then (if is_int e && Z.odd (Int_part e) then NInf else PInf)
      else Fin 0
  end.

(** Round half to even, to the nearest integer. *)
Definition rint (x : R) : Z :=
  let f := Int_part x in
  let r := x - IZR f in
  if Rltb r (1 / 2) then f
  else if Rltb (1 / 2) r then (f + 1)%Z
  else if Z.even f then f else (f + 1)%Z.

(** [round(a, n)]: scale by [10 ** n], round half to even, scale back. *)
Definition round (a : fl) (n : nat) : fl :=
  match a with
  | Fin x => Fin (IZR (rint (x * 10 ^ n)) / 10 ^ n)
  | _ => a
  end.

(** ** Exceptions *)

Inductive exn : Type :=
| IndexError
| ZeroDivisionError
| ValueError
| OverflowError.

Definition result (A : Type) : Type := (exn + A)%type.

Definition ret {A : Type} (a : A) : result A := inr a.
Definition raise {A : Type} (e : exn) : result A := inl e.

Definition bind {A B : Type} (m : result A) (k : A -> result B) : result B :=
  match m with
  | inl e => inl e
  | inr a => k a
  end.

Notation "x <- m ;; k" := (bind m (fun x => k))
  (at level 61, m at next level, right associativity).

(** ** Calendar

    A [Timestamp] is the number of days since 1970-01-01 (a Thursday). *)

Open Scope Z_scope.

Definition days_from_civil (y m d : Z) : Z :=
  let y' := if m <=? 2 then y - 1 else y in
  let era := y' / 400 in
  let yoe := y' - era * 400 in
  let doy := (153 * (if 2 <? m then m - 3 else m + 9) + 2) / 5 + d - 1 in
  let doe := yoe * 365 + yoe / 4 - yoe / 100 + doy in
  era * 146097 + doe - 719468.

(** Year and month (1..12) of a day number. *)
Definition civil_from_days (z0 : Z) : Z * Z :=
  let z := z0 + 719468 in
  let era := z / 146097 in
  let doe := z - era * 146097 in
  let yoe := (doe - doe / 1460 + doe / 36524 - doe / 146096) / 365 in
  let doy := doe - (365 * yoe + yoe / 4 - yoe / 100) in
  let mp := (5 * doy + 2) / 153 in
  let m := if mp <? 10 then mp + 3 else mp - 9 in
  let y := yoe + era * 400 in
  (if m <=? 2 then y + 1 else y, m).

(** The bins of [resample]: the calendar year for ['YE'], the calendar
    month for ['ME'], the week ending on Sunday for ['W'].  Bins are
    numbered so that consecutive periods have consecutive numbers. *)
Definition year_of (d : Z) : Z := fst (civil_from_days d).
Definition month_of (d : Z) : Z :=
  let '(y, m) := civil_from_days d in 12 * y + (m - 1).
Definition week_of (d : Z) : Z := (d + 3) / 7.

(** The label of a weekly bin: the Sunday that closes it. *)
Definition week_label (w : Z) : Z := 7 * w + 3.

Close Scope Z_scope.

(** ** pandas: Series *)

Definition Series : Type := list (Z * fl).

Definition index (s : Series) : list Z := map fst s.
Definition values (s : Series) : list fl := map snd s.

Definition notna (p : Z * fl) : bool := negb (isnan (snd p)).

Definition dropna (s : Series) : Series := filter notna s.

(** [s.index[0]], [s.index[-1]], [s.iloc[0]], [s.iloc[-1]]: IndexError on
    an empty Series. *)
Definition first_row (s : Series) : result (Z * fl) :=
  match s with
  | [] => raise IndexError
  | p :: _ => ret p
  end.

Definition last_row (s : Series) : result (Z * fl) :=
  match s with
  | [] => raise IndexError
  | p :: t => ret (last t p)
  end.

(** Arithmetic of two Series on the same index, and of a Series and a
    scalar. *)
Definition zip_with (f : fl -> fl -> fl) (s t : Series) : Series :=
  map (fun '((d, a), (_, b)) => (d, f a b)) (combine s t).

Definition map_values (f : fl -> fl) (s : Series) : Series :=
  map (fun '(d, a) => (d, f a)) s.

(** [s.cummax()]: the running maximum of the values seen so far; NaN is
    skipped and stays NaN. *)
Fixpoint cummax_from (acc : fl) (s : Series) : Series :=
  match s with
  | [] => []
  | (d, v) :: t =>
      if isnan v then (d, NaN) :: cummax_from acc t
      else let m := fmax acc v in (d, m) :: cummax_from m t
  end.

Definition cummax (s : Series) : Series := cummax_from NInf s.

(** [s.shift(1)] and [s.ffill()]. *)
Fixpoint shift_from (prev : fl) (s : Series) : Series :=
  match s with
  | [] => []
  | (d, v) :: t => (d, prev) :: shift_from v t
  end.

Definition shift (s : Series) : Series := shift_from NaN s.

Fixpoint ffill_from (prev : fl) (s : Series) : Series :=
  match s with
  | [] => []
  | (d, v) :: t =>
      let v' := if isnan v then prev else v in
      (d, v') :: ffill_from v' t
  end.

Definition ffill (s : Series) : Series := ffill_from NaN s.

(** [s.pct_change()] is [data / data.shift(1) - 1].  pandas 2.x takes
    [data = s.ffill()] (the default [fill_method='pad']), pandas 3 takes
    [data = s]; [pad] says which. *)
Definition pct_change (pad : bool) (s : Series) : Series :=
  let data := if pad then ffill s else s in
  map_values (fun q => fsub q (Fin 1)) (zip_with fdiv data (shift data)).

(** [s.resample(rule).last()] on an index in increasing order: one row for
    every period from the period of the first row to the period of the
    last row, holding the last value of the period that is not NaN, and NaN
    when the period has none.  The row is labelled by its bin number. *)
Definition last_valid (s : Series) : fl :=
  last (values (dropna s)) NaN.

Definition in_bin (key : Z -> Z) (k : Z) (p : Z * fl) : bool :=
  (key (fst p) =? k)%Z.

Definition resample_last (key : Z -> Z) (s : Series) : Series :=
  match s with
  | [] => []
  | (d0, _) :: t =>
      let k0 := key d0 in
      let k1 := key (fst (last t (d0, NaN))) in
      map (fun i => let k := (k0 + Z.of_nat i)%Z in
                    (k, last_valid (filter (in_bin key k) s)))
          (seq 0 (Z.to_nat (k1 - k0 + 1)))
  end.

(** Reductions, all with [skipna=True]. *)
Definition fsum (l : list fl) : fl := fold_right fadd (Fin 0) l.

Definition valid (l : list fl) : list fl := filter (fun a => negb (isnan a)) l.

Definition count (l : list fl) : fl := Fin (INR (length l)).

Definition mean (s : Series) : fl :=
  let l := valid (values s) in fdiv (fsum l) (count l).

(** [s.std()]: the square root of the sample variance ([ddof=1]), NaN on
    fewer than two values. *)
Definition var (s : Series) : fl :=
  let l := valid (values s) in
  if (length l <=? 1)%nat then NaN
  else
    let avg := fdiv (fsum l) (count l) in
    let sqr := fsum (map (fun v => let t := fsub avg v in fmul t t) l) in
    fdiv sqr (Fin (INR (length l - 1))).

Definition std (s : Series) : fl := fsqrt (var s).

(** [s.min()]: NaN on a Series without a valid value. *)
Definition smin (s : Series) : fl :=
  match valid (values s) with
  | [] => NaN
  | a :: l => fold_left fmin l a
  end.

(** [(s > 0).mean()]: the share of rows with a positive value. *)
Definition share_positive (s : Series) : fl :=
  fdiv (count (filter (fun a => fgt a (Fin 0)) (values s)))
       (count (values s)).

(** [a.index.intersection(b.index)] and [a.loc[labels]] for [labels]
    among the index of [a]. *)
Definition intersection (a b : list Z) : list Z :=
  filter (fun k => existsb (Z.eqb k) b) a.

Definition loc (a : Series) (labels : list Z) : Series :=
  filter (fun p => existsb (Z.eqb (fst p)) labels) a.

(** [s.loc[lo:hi]] on an index in increasing order: both ends included. *)
Definition loc_range (s : Series) (lo hi : Z) : Series :=
  filter (fun p => (lo <=? fst p)%Z && (fst p <=? hi)%Z) s.

(** [np.cov(x, y)]: the 2x2 sample covariance matrix ([ddof=1]), of which
    the scripts read [c01] and [c11].  On fewer than two observations the
    divisor is replaced by 0. *)
Definition np_cov (x y : list fl) : fl * fl :=
  let n := length x in
  let fact := Fin (INR (n - 1)) in
  let ax := fdiv (fsum x) (count x) in
  let ay := fdiv (fsum y) (count y) in
  let dx := map (fun v => fsub v ax) x in
  let dy := map (fun v => fsub v ay) y in
  let dot u v := fsum (map (fun '(a, b) => fmul a b) (combine u v)) in
  let scale := fdiv (Fin 1) fact in
  (fmul (dot dx dy) scale, fmul (dot dy dy) scale).

(** ** Python scalars *)

(** [a / b] on Python floats raises on a zero divisor. *)
Definition py_div (a b : R) : result R :=
  if Reqb b 0 then raise ZeroDivisionError else ret (a / b).

(** [int(a)]: truncation toward zero; NaN and the infinities raise. *)
Definition trunc (x : R) : Z :=
  if Rltb x 0 then (- Int_part (- x))%Z else Int_part x.

Definition py_int (a : fl) : result Z :=
  match a with
  | Fin x => ret (trunc x)
  | NaN => raise ValueError
  | PInf | NInf => raise OverflowError
  end.

(** ** The input table

    [curves] is the table read from [all_equity_curves.csv]: one row per
    date with the [WalkForward] and [NIFTY_100pct] columns, an empty cell
    read as NaN. *)

Definition Curves : Type := list (Z * fl * fl).

Definition WalkForward (curves : Curves) : Series :=
  map (fun '(d, w, _) => (d, w)) curves.

Definition NIFTY_100pct (curves : Curves) : Series :=
  map (fun '(d, _, n) => (d, n)) curves.

(** ** generate_site_data.py *)

Module SiteData.

Definition compute_drawdown (equity : Series) : Series :=
  let peak := cummax equity in
  zip_with fdiv (zip_with fsub equity peak) peak.

Definition compute_annual_returns (pad : bool) (equity : Series) : list (Z * fl) :=
  let annual := dropna (pct_change pad (resample_last year_of equity)) in
  map (fun '(y, v) => (y, round (fmul v (Fin 100)) 1)) annual.

(** The months are keyed by their number, [12 * year + month - 1], where
    the script has the text ['%Y-%m']. *)
Definition compute_monthly_returns (pad : bool) (equity : Series) : list (Z * fl) :=
  let monthly := dropna (pct_change pad (resample_last month_of equity)) in
  map (fun '(m, v) => (m, round (fmul v (Fin 100)) 2)) monthly.

(** The variables of [generate], each as a function of the two Series
    [wf] and [nifty] it is computed from. *)

Definition wf (curves : Curves) : Series := dropna (WalkForward curves).

Definition nifty (curves : Curves) : result Series :=
  w0 <- first_row (wf curves) ;;
  w1 <- last_row (wf curves) ;;
  ret (dropna (loc_range (NIFTY_100pct curves) (fst w0) (fst w1))).

Definition years (wf : Series) : result R :=
  w0 <- first_row wf ;;
  w1 <- last_row wf ;;
  ret (IZR (fst w1 - fst w0) / 365.25).

Definition multiple (wf : Series) : result fl :=
  w1 <- last_row wf ;;
  w0 <- first_row wf ;;
  ret (fdiv (snd w1) (snd w0)).

Definition total_ret (wf : Series) : result fl :=
  m <- multiple wf ;;
  ret (fsub m (Fin 1)).

Definition cagr (wf : Series) : result fl :=
  y <- years wf ;;
  t <- total_ret wf ;;
  e <- py_div 1 y ;;
  ret (fsub (fpow (fadd (Fin 1) t) e) (Fin 1)).

Definition dd (wf : Series) : Series := compute_drawdown wf.

Definition max_dd (wf : Series) : fl := smin (dd wf).

Definition rets (pad : bool) (wf : Series) : Series :=
  dropna (pct_change pad wf).

Definition sharpe (pad : bool) (wf : Series) : fl :=
  let rets := rets pad wf in
  if fgt (std rets) (Fin 0)
  then fmul (fdiv (mean rets) (std rets)) (Fin (sqrt 252))
  else Fin 0.

Definition calmar (cagr max_dd : fl) : fl :=
  if fne max_dd (Fin 0) then fdiv cagr (fabs max_dd) else Fin 0.

Definition nifty_cagr (wf nifty : Series) : result fl :=
  y <- years wf ;;
  t <- total_ret nifty ;;
  e <- py_div 1 y ;;
  ret (fsub (fpow (fadd (Fin 1) t) e) (Fin 1)).

Definition alpha (cagr nifty_cagr : fl) : fl := fsub cagr nifty_cagr.

Definition monthly (pad : bool) (s : Series) : Series :=
  dropna (pct_change pad (resample_last month_of s)).

Definition common_m (pad : bool) (wf nifty : Series) : list Z :=
  intersection (index (monthly pad wf)) (index (monthly pad nifty)).

Definition cov (pad : bool) (wf nifty : Series) : fl * fl :=
  let common_m := common_m pad wf nifty in
  np_cov (values (loc (monthly pad wf) common_m))
         (values (loc (monthly pad nifty) common_m)).

Definition beta (pad : bool) (wf nifty : Series) : fl :=
  let '(c01, c11) := cov pad wf nifty in
  if fgt c11 (Fin 0) then fdiv c01 c11 else Fin 0.

Definition win_rate (pad : bool) (wf nifty : Series) : fl :=
  let common_m := common_m pad wf nifty in
  round (fmul (share_positive (loc (monthly pad wf) common_m)) (Fin 100)) 0.

Record Hero : Type := mkHero {
  hero_cagr : fl;
  hero_max_dd : fl;
  hero_sharpe : fl;
  hero_calmar : fl;
  hero_alpha : fl;
  hero_beta : fl;
  hero_multiple : fl;
  hero_win_rate : Z;
  hero_years : fl
}.

(** The weekly equity curve: the labels of the weeks and the values. *)
Definition norm (s : Series) : result Series :=
  s0 <- first_row s ;;
  ret (map_values (fun v => fmul (fdiv v (snd s0)) (Fin 100)) s).

Definition weekly (s : Series) : Series :=
  dropna (resample_last week_of s).

Definition curve (weekly : Series) : list Z * list fl :=
  (map week_label (index weekly), map (fun v => round v 1) (values weekly)).

(** The benchmark's own metrics. *)
Definition nifty_dd (nifty : Series) : Series := compute_drawdown nifty.

Definition nifty_rets_daily (pad : bool) (nifty : Series) : Series :=
  dropna (pct_change pad nifty).

Definition nifty_sharpe (pad : bool) (nifty : Series) : fl :=
  let nifty_rets_daily := nifty_rets_daily pad nifty in
  if fgt (std nifty_rets_daily) (Fin 0)
  then fmul (fdiv (mean nifty_rets_daily) (std nifty_rets_daily)) (Fin (sqrt 252))
  else Fin 0.

Definition nifty_max_dd (nifty : Series) : fl := smin (nifty_dd nifty).

Definition nifty_multiple (nifty : Series) : result fl :=
  n1 <- last_row nifty ;;
  n0 <- first_row nifty ;;
  ret (fdiv (snd n1) (snd n0)).

Record Benchmark : Type := mkBenchmark {
  benchmark_cagr : fl;
  benchmark_sharpe : fl;
  benchmark_max_dd : fl;
  benchmark_multiple : fl
}.

Record SiteData : Type := mkSiteData {
  hero : Hero;
  benchmark : Benchmark;
  equity_curve_wf : list Z * list fl;
  equity_curve_nifty : list Z * list fl;
  annual_returns_wf : list (Z * fl);
  annual_returns_nifty : list (Z * fl);
  monthly_returns : list (Z * fl);
  drawdown : list Z * list fl
}.

(** The pure part of [generate]: from the table to the data written to
    [site_metrics.json] (the constants and the time stamp left out). *)
Definition generate (pad : bool) (curves : Curves) : result SiteData :=
  let wf := wf curves in
  nifty <- nifty curves ;;
  years <- years wf ;;
  cagr <- cagr wf ;;
  let dd := dd wf in
  let max_dd := max_dd wf in
  let sharpe := sharpe pad wf in
  let calmar := calmar cagr max_dd in
  multiple <- multiple wf ;;
  nifty_cagr <- nifty_cagr wf nifty ;;
  let alpha := alpha cagr nifty_cagr in
  let beta := beta pad wf nifty in
  let win_rate := win_rate pad wf nifty in
  win_rate_int <- py_int win_rate ;;
  let hero :=
    mkHero (round (fmul cagr (Fin 100)) 1)
           (round (fmul max_dd (Fin 100)) 1)
           (round sharpe 2)
           (round calmar 2)
           (round (fmul alpha (Fin 100)) 1)
           (round beta 2)
           (round multiple 1)
           win_rate_int
           (round (Fin years) 1) in
  norm_wf <- norm wf ;;
  norm_nifty <- norm nifty ;;
  let wf_weekly := weekly norm_wf in
  let nifty_weekly := weekly norm_nifty in
  let wf_annual := compute_annual_returns pad wf in
  let nifty_annual := compute_annual_returns pad nifty in
  let monthly_returns := compute_monthly_returns pad wf in
  let dd_weekly := weekly dd in
  let drawdown :=
    (map week_label (index dd_weekly),
     map (fun v => round (fmul v (Fin 100)) 1) (values dd_weekly)) in
  let nifty_sharpe := nifty_sharpe pad nifty in
  let nifty_max_dd := nifty_max_dd nifty in
  nifty_multiple <- nifty_multiple nifty ;;
  let benchmark :=
    mkBenchmark (round (fmul nifty_cagr (Fin 100)) 1)
                (round nifty_sharpe 2)
                (round (fmul nifty_max_dd (Fin 100)) 1)
                (round nifty_multiple 1) in
  ret (mkSiteData hero benchmark (curve wf_weekly) (curve nifty_weekly)
                  wf_annual nifty_annual monthly_returns drawdown).

End SiteData.


(** ** generate_landing.py *)

Module Landing.

Definition compute_drawdown (equity : Series) : Series :=
  let peak := cummax equity in
  zip_with fdiv (zip_with fsub equity peak) peak.

Definition compute_annual_returns (pad : bool) (equity : Series) : list (Z * fl) :=
  let annual := dropna (pct_change pad (resample_last year_of equity)) in
  map (fun '(y, v) => (y, round (fmul v (Fin 100)) 1)) annual.

Definition wf (curves : Curves) : Series := dropna (WalkForward curves).

Definition nifty (curves : Curves) : result Series :=
  w0 <- first_row (wf curves) ;;
  w1 <- last_row (wf curves) ;;
  ret (dropna (loc_range (NIFTY_100pct curves) (fst w0) (fst w1))).

Definition years (wf : Series) : result R :=
  w0 <- first_row wf ;;
  w1 <- last_row wf ;;
  ret (IZR (fst w1 - fst w0) / 365.25).

Definition multiple (wf : Series) : result fl :=
  w1 <- last_row wf ;;
  w0 <- first_row wf ;;
  ret (fdiv (snd w1) (snd w0)).

Definition total_ret (wf : Series) : result fl :=
  m <- multiple wf ;;
  ret (fsub m (Fin 1)).

Definition cagr (wf : Series) : result fl :=
  y <- years wf ;;
  t <- total_ret wf ;;
  e <- py_div 1 y ;;
  ret (fsub (fpow (fadd (Fin 1) t) e) (Fin 1)).

Definition dd (wf : Series) : Series := compute_drawdown wf.

Definition max_dd (wf : Series) : fl := smin (dd wf).

Definition rets (pad : bool) (wf : Series) : Series :=
  dropna (pct_change pad wf).

Definition sharpe (pad : bool) (wf : Series) : fl :=
  let rets := rets pad wf in
  if fgt (std rets) (Fin 0)
  then fmul (fdiv (mean rets) (std rets)) (Fin (sqrt 252))
  else Fin 0.

Definition calmar (cagr max_dd : fl) : fl :=
  if fne max_dd (Fin 0) then fdiv cagr (fabs max_dd) else Fin 0.

Definition nifty_cagr (wf nifty : Series) : result fl :=
  y <- years wf ;;
  t <- total_ret nifty ;;
  e <- py_div 1 y ;;
  ret (fsub (fpow (fadd (Fin 1) t) e) (Fin 1)).

Definition alpha (cagr nifty_cagr : fl) : fl := fsub cagr nifty_cagr.

(** [nifty_rets] and [common] are computed and never read. *)
Definition nifty_rets (pad : bool) (nifty : Series) : Series :=
  dropna (pct_change pad nifty).

Definition common (pad : bool) (wf nifty : Series) : list Z :=
  intersection (index (rets pad wf)) (index (nifty_rets pad nifty)).

Definition monthly (pad : bool) (s : Series) : Series :=
  dropna (pct_change pad (resample_last month_of s)).

Definition common_m (pad : bool) (wf nifty : Series) : list Z :=
  intersection (index (monthly pad wf)) (index (monthly pad nifty)).

Definition cov (pad : bool) (wf nifty : Series) : fl * fl :=
  let common_m := common_m pad wf nifty in
  np_cov (values (loc (monthly pad wf) common_m))
         (values (loc (monthly pad nifty) common_m)).

Definition beta (pad : bool) (wf nifty : Series) : fl :=
  let '(c01, c11) := cov pad wf nifty in
  if fgt c11 (Fin 0) then fdiv c01 c11 else Fin 0.

Record Hero : Type := mkHero {
  hero_cagr : fl;
  hero_max_dd : fl;
  hero_sharpe : fl;
  hero_calmar : fl;
  hero_alpha : fl;
  hero_beta : fl;
  hero_multiple : fl;
  hero_years : fl
}.

Definition norm (s : Series) : result Series :=
  s0 <- first_row s ;;
  ret (map_values (fun v => fmul (fdiv v (snd s0)) (Fin 100)) s).

Definition weekly (s : Series) : Series :=
  dropna (resample_last week_of s).

Definition curve (weekly : Series) : list Z * list fl :=
  (map week_label (index weekly), map (fun v => round v 1) (values weekly)).

Definition win_rate (pad : bool) (wf nifty : Series) : fl :=
  let common_m := common_m pad wf nifty in
  round (fmul (share_positive (loc (monthly pad wf) common_m)) (Fin 100)) 0.

(** What [generate_landing] hands to [build_landing_html]. *)
Record LandingData : Type := mkLandingData {
  hero : Hero;
  chart_data_wf : list Z * list fl;
  chart_data_nifty : list Z * list fl;
  annual_data_wf : list (Z * fl);
  annual_data_nifty : list (Z * fl);
  landing_win_rate : fl
}.

Definition generate_landing (pad : bool) (curves : Curves) : result LandingData :=
  let wf := wf curves in
  nifty <- nifty curves ;;
  years <- years wf ;;
  cagr <- cagr wf ;;
  let max_dd := max_dd wf in
  let sharpe := sharpe pad wf in
  let calmar := calmar cagr max_dd in
  multiple <- multiple wf ;;
  nifty_cagr <- nifty_cagr wf nifty ;;
  let alpha := alpha cagr nifty_cagr in
  let beta := beta pad wf nifty in
  let hero :=
    mkHero (round (fmul cagr (Fin 100)) 1)
           (round (fmul max_dd (Fin 100)) 1)
           (round sharpe 2)
           (round calmar 2)
           (round (fmul alpha (Fin 100)) 1)
           (round beta 2)
           (round multiple 1)
           (round (Fin years) 1) in
  norm_wf <- norm wf ;;
  norm_nifty <- norm nifty ;;
  let wf_weekly := weekly norm_wf in
  let nifty_weekly := weekly norm_nifty in
  let win_rate := win_rate pad wf nifty in
  ret (mkLandingData hero (curve wf_weekly) (curve nifty_weekly)
                     (compute_annual_returns pad wf)
                     (compute_annual_returns pad nifty)
                     win_rate).

End Landing.

(** ** The years of the annual chart

    Both scripts take
    [sorted(set(list(wf_annual.keys()) + list(nifty_annual.keys())))]:
    the keys of the two mappings in increasing order, each once. *)

Fixpoint insert_sorted (k : Z) (l : list Z) : list Z :=
  match l with
  | [] => [k]
  | h :: t =>
      if (k <? h)%Z then k :: l
      else if (k =? h)%Z then l
      else h :: insert_sorted k t
  end.

Definition sorted_set (l : list Z) : list Z := fold_right insert_sorted [] l.

Definition all_years (wf_annual nifty_annual : list (Z * fl)) : list Z :=
  sorted_set (map fst wf_annual ++ map fst nifty_annual).

(** ** generate_landing.py: the cached chart libraries

    [get_chartjs_inline] reads two files of the directory [LIBS_DIR] and
    first downloads those that are not there.  The directory is a map from
    file names to texts, the network a map from URLs to the text served,
    with [None] for a download that fails; the function returns its result,
    the directory it leaves and the URLs it requested, in order. *)

Definition Dir : Type := string -> option string.
Definition Web : Type := string -> option string.

Definition write_file (dir : Dir) (fname text : string) : Dir :=
  fun g => if String.eqb g fname then Some text else dir g.

Definition CHARTJS_URLS : list (string * string) :=
  [("chart.umd.min.js"%string,
    "https://cdn.jsdelivr.net/npm/chart.js@4.4.0/dist/chart.umd.min.js"%string);
   ("chartjs-adapter-date-fns.bundle.min.js"%string,
    "https://cdn.jsdelivr.net/npm/chartjs-adapter-date-fns@3.0.0/dist/chartjs-adapter-date-fns.bundle.min.js"%string)].

(** The loop over [CHARTJS_URLS]; [None] is the exception of a failed
    download, which ends the loop. *)
Fixpoint load_sources (web : Web) (urls : list (string * string)) (dir : Dir)
  : option (list string) * Dir * list string :=
  match urls with
  | [] => (Some [], dir, [])
  | (fname, url) :: rest =>
      match dir fname with
      | Some text =>
          let '(sources, dir', requests) := load_sources web rest dir in
          (option_map (cons text) sources, dir', requests)
      | None =>
          match web url with
          | None => (None, dir, [url])
          | Some text =>
              let '(sources, dir', requests) :=
                load_sources web rest (write_file dir fname text) in
              (option_map (cons text) sources, dir', url :: requests)
          end
      end
  end.

Definition get_chartjs_inline (web : Web) (dir : Dir)
  : option (string * string) * Dir * list string :=
  let '(sources, dir', requests) := load_sources web CHARTJS_URLS dir in
  (match sources with
   | Some (s0 :: s1 :: _) => Some (s0, s1)
   | _ => None
   end, dir', requests).

(** ** models.py: referral codes

    [secrets.choice(chars)] is [chars[randbelow(len(chars))]]; the random
    source is the sequence [rng] of the numbers drawn, reduced to the
    range. *)

Definition chars : list ascii :=
  list_ascii_of_string "ABCDEFGHIJKLMNOPQRSTUVWXYZ0123456789".

Definition choice (seq : list ascii) (r : nat) : ascii :=
  nth (r mod length seq) seq "000"%char.

Definition generate_referral_code (rng : nat -> nat) (length : nat) : string :=
  ("EFP-" ++ string_of_list_ascii (map (fun i => choice chars (rng i)) (seq 0 length)))%string.

(** ** wsgi.py

    The entry point puts the application's directory in front of
    [sys.path] unless it is there, and sets [SECRET_KEY] in the environment
    unless it is set. *)

Record Process : Type := mkProcess {
  sys_path : list string;
  environ : string -> option string
}.

Definition path : string := "/home/YOURUSERNAME/efpwealth".

Definition wsgi (p : Process) : Process :=
  let sys_path' :=
    if existsb (String.eqb path) (sys_path p) then sys_path p
    else path :: sys_path p in
  let environ' :=
    match environ p "SECRET_KEY"%string with
    | None => fun k => if String.eqb k "SECRET_KEY" then Some "CHANGE-ME-TO-A-RANDOM-SECRET"%string
                       else environ p k
    | Some _ => environ p
    end in
  mkProcess sys_path' environ'.

(** ** Binary64 arithmetic

    The definitions above compute on real numbers where the scripts compute
    on binary64 floats: they give the value of a metric up to rounding.
    Rounding decides the outcome where a script compares a computed number
    with 0 ([rets.std() > 0], [cov[1, 1] > 0]) and where it rounds a number
    that lies next to a tie.  [F64] has the arithmetic of the scripts on the
    machine's floats (the primitive binary64 type [float]), on the values of
    a Series in the order of its index, to evaluate such inputs.  Sums are
    taken from left to right; numpy and pandas leave the order open, and it
    does not matter in the examples proved below, which add equal numbers. *)

Module F64.

Definition dropna (l : list float) : list float :=
  filter (fun a => negb (PrimFloat.is_nan a)) l.

Fixpoint shift_from (prev : float) (l : list float) : list float :=
  match l with
  | [] => []
  | v :: t => prev :: shift_from v t
  end.

Definition shift (l : list float) : list float := shift_from PrimFloat.nan l.

Fixpoint ffill_from (prev : float) (l : list float) : list float :=
  match l with
  | [] => []
  | v :: t =>
      let v' := if PrimFloat.is_nan v then prev else v in
      v' :: ffill_from v' t
  end.

Definition ffill (l : list float) : list float := ffill_from PrimFloat.nan l.

Definition pct_change (pad : bool) (s : list float) : list float :=
  let data := if pad then ffill s else s in
  map (fun '(a, b) => (a / b - 1)%float) (combine data (shift data)).

Definition fsum (l : list float) : float := fold_left PrimFloat.add l 0%float.

Definition count (l : list float) : float :=
  PrimFloat.of_uint63 (Uint63.of_Z (Z.of_nat (length l))).

Definition mean (s : list float) : float :=
  let l := dropna s in (fsum l / count l)%float.

Definition var (s : list float) : float :=
  let l := dropna s in
  if (length l <=? 1)%nat then PrimFloat.nan
  else
    let avg := (fsum l / count l)%float in
    let sqr := fsum (map (fun v => let t := (avg - v)%float in (t * t)%float) l) in
    (sqr / PrimFloat.of_uint63 (Uint63.of_Z (Z.of_nat (length l - 1))))%float.

Definition std (s : list float) : float := PrimFloat.sqrt (var s).

Definition rets (pad : bool) (wf : list float) : list float :=
  dropna (pct_change pad wf).

Definition sharpe (pad : bool) (wf : list float) : float :=
  let rets := rets pad wf in
  if PrimFloat.ltb 0 (std rets)
  then (mean rets / std rets * PrimFloat.sqrt 252)%float
  else 0%float.

(** [np.cov] and [beta] on the two arrays of monthly returns. *)
Definition np_cov (x y : list float) : float * float :=
  let n := length x in
  let fact := PrimFloat.of_uint63 (Uint63.of_Z (Z.of_nat (n - 1))) in
  let ax := (fsum x / count x)%float in
  let ay := (fsum y / count y)%float in
  let dx := map (fun v => (v - ax)%float) x in
  let dy := map (fun v => (v - ay)%float) y in
  let dot u v := fsum (map (fun '(a, b) => (a * b)%float) (combine u v)) in
  let scale := (1 / fact)%float in
  ((dot dx dy * scale)%float, (dot dy dy * scale)%float).

Definition beta (x y : list float) : float :=
  let '(c01, c11) := np_cov x y in
  if PrimFloat.ltb 0 c11 then (c01 / c11)%float else 0%float.

(** [round(x, n)] of a numpy float: [rint(x * 10**n) / 10**n], where
    [rint] rounds to the nearest integer, ties to the even one (below
    [2**52] adding and subtracting [2**52] does so; from there on every
    float is an integer). *)
Definition rint (x : float) : float :=
  let big := 4503599627370496%float in
  if PrimFloat.ltb (PrimFloat.abs x) big
  then if PrimFloat.ltb x 0 then (x - big + big)%float else (x + big - big)%float
  else x.

Fixpoint pow10 (n : nat) : float :=
  match n with
  | O => 1%float
  | S m => (10 * pow10 m)%float
  end.

Definition round (x : float) (n : nat) : float :=
  (rint (x * pow10 n) / pow10 n)%float.

End F64.
(** * Specification-level definitions *)

(** The first day of the month numbered [k], and the test that a day lies
    in the month and the year [month_of] and [year_of] give it. *)
Definition month_start (k : Z) : Z :=
  days_from_civil (k / 12) (k mod 12 + 1) 1.

Definition in_its_month (z : Z) : bool :=
  ((month_start (month_of z) <=? z)%Z && (z <? month_start (month_of z + 1))%Z
   && (year_of z =? month_of z / 12)%Z)%bool.

Fixpoint all_days (f : Z -> bool) (n : nat) (z : Z) : bool :=
  match n with
  | O => true
  | S n => f z && all_days f n (z + 1)%Z
  end.

(** A Series of finite values. *)
Definition fin_series (xs : list (Z * R)) : Series :=
  map (fun '(d, x) => (d, Fin x)) xs.

(** The running maximum on reals: [acc] is the maximum so far, if any. *)
Fixpoint peaks (acc : option R) (xs : list (Z * R)) : list (Z * R) :=
  match xs with
  | [] => []
  | (d, x) :: t =>
      let m := match acc with None => x | Some a => Rmax a x end in
      (d, m) :: peaks (Some m) t
  end.

Definition acc_fl (acc : option R) : fl :=
  match acc with None => NInf | Some a => Fin a end.

(** [p] is the largest of the values at the positions [0..i] of [xs]. *)
Definition running_max (xs : list (Z * R)) (i : nat) (p : R) : Prop :=
  (exists j d, (j <= i)%nat /\ nth_error xs j = Some (d, p)) /\
  (forall j d y, (j <= i)%nat -> nth_error xs j = Some (d, y) -> y <= p).

(** The values of [xs] divided by [x0] and multiplied by 100. *)
Definition scaled (x0 : R) (xs : list (Z * R)) : list (Z * R) :=
  map (fun '(d, x) => (d, x / x0 * 100)) xs.








(** The period-over-period returns [x / previous - 1] of a real series,
    each at the date of [x]. *)
Fixpoint pct_from (prev : R) (xs : list (Z * R)) : list (Z * R) :=
  match xs with
  | [] => []
  | (d, x) :: t => (d, x / prev - 1) :: pct_from x t
  end.

Definition pct (xs : list (Z * R)) : list (Z * R) :=
  match xs with
  | [] => []
  | (_, x0) :: t => pct_from x0 t
  end.

(** Three month-ends, used to exercise the monthly statistics. *)
Definition three_month_ends (a b c : R) : list (Z * R) :=
  [(days_from_civil 2024 1 31, a); (days_from_civil 2024 2 29, b);
   (days_from_civil 2024 3 31, c)].

(** The metrics that both scripts produce have the same values in the
    output [sd] of [generate] and the data [ld] that [generate_landing]
    renders.  [generate] stores the win rate as an [int], which
    [generate_landing] keeps as a float. *)
Definition same_metrics (sd : SiteData.SiteData) (ld : Landing.LandingData) : Prop :=
  let h := SiteData.hero sd in
  let h' := Landing.hero ld in
  SiteData.hero_cagr h = Landing.hero_cagr h' /\
  SiteData.hero_max_dd h = Landing.hero_max_dd h' /\
  SiteData.hero_sharpe h = Landing.hero_sharpe h' /\
  SiteData.hero_calmar h = Landing.hero_calmar h' /\
  SiteData.hero_alpha h = Landing.hero_alpha h' /\
  SiteData.hero_beta h = Landing.hero_beta h' /\
  SiteData.hero_multiple h = Landing.hero_multiple h' /\
  SiteData.hero_years h = Landing.hero_years h' /\
  Fin (IZR (SiteData.hero_win_rate h)) = Landing.landing_win_rate ld /\
  SiteData.equity_curve_wf sd = Landing.chart_data_wf ld /\
  SiteData.equity_curve_nifty sd = Landing.chart_data_nifty ld /\
  SiteData.annual_returns_wf sd = Landing.annual_data_wf ld /\
  SiteData.annual_returns_nifty sd = Landing.annual_data_nifty ld.

(** A table of three month-ends: the strategy at 100, 110, 99 and the
    benchmark at 50, 40, 30. *)
Definition three_months_table : Curves :=
  [(days_from_civil 2024 1 31, Fin 100, Fin 50);
   (days_from_civil 2024 2 29, Fin 110, Fin 40);
   (days_from_civil 2024 3 31, Fin 99, Fin 30)].

(** The drawdowns of a real series: each value against the running
    maximum. *)
Definition drawdowns (xs : list (Z * R)) : list (Z * R) :=
  map (fun '((d, x), (_, p)) => (d, (x - p) / p)) (combine xs (peaks None xs)).



(** A reported number: [out] is [exact] rounded to [n] decimals, a finite
    multiple of [10 ^ -n] at most half of [10 ^ -n] away from [exact]. *)
Definition rounded (n : nat) (exact : R) (out : fl) : Prop :=
  exists v k, out = Fin v /\ v = IZR k / 10 ^ n /\ Rabs (v - exact) <= 1 / 2 / 10 ^ n.



(** Two trading days of one month: the strategy at 100, 110 and the
    benchmark at 50, 55. *)
Definition one_month_table : Curves :=
  [(days_from_civil 2024 1 1, Fin 100, Fin 50);
   (days_from_civil 2024 1 2, Fin 110, Fin 55)].
(** * Properties *)

(** ** Comparisons and the calendar *)

Lemma Rltb_true x y : x < y -> Rltb x y = true.
Proof. unfold Rltb; intros H; destruct (Rlt_dec x y); [reflexivity | contradiction]. Qed.

Lemma Rltb_false x y : ~ x < y -> Rltb x y = false.
Proof. unfold Rltb; intros H; destruct (Rlt_dec x y); [contradiction | reflexivity]. Qed.

Lemma Reqb_true x y : x = y -> Reqb x y = true.
Proof. unfold Reqb; intros H; destruct (Req_dec_T x y); [reflexivity | contradiction]. Qed.

Lemma Reqb_false x y : x <> y -> Reqb x y = false.
Proof. unfold Reqb; intros H; destruct (Req_dec_T x y); [contradiction | reflexivity]. Qed.

Open Scope Z_scope.

Example civil_2020_12_31 :
  days_from_civil 2020 12 31 = 18627 /\ civil_from_days 18627 = (2020, 12).
Proof. split; reflexivity. Qed.

Example civil_2024_02_29 :
  days_from_civil 2024 2 29 = 19782 /\ civil_from_days 19782 = (2024, 2).
Proof. split; reflexivity. Qed.

Example week_2024_01_01 :
  week_label (week_of (days_from_civil 2024 1 1)) = days_from_civil 2024 1 7
  /\ week_label (week_of (days_from_civil 2024 1 7)) = days_from_civil 2024 1 7
  /\ week_label (week_of (days_from_civil 2024 1 8)) = days_from_civil 2024 1 14.
Proof. repeat split; reflexivity. Qed.

(** Every day from 2000-01-01 to 2029-12-31 lies in the month and the year
    that the bins of [resample] give it. *)
Lemma calendar_2000_2029 :
  all_days in_its_month
           (Z.to_nat (days_from_civil 2030 1 1 - days_from_civil 2000 1 1))
           (days_from_civil 2000 1 1) = true.
Proof. vm_compute. reflexivity. Qed.

Close Scope Z_scope.

(** ** Arithmetic on finite values *)

Lemma fsub_Fin x y : fsub (Fin x) (Fin y) = Fin (x - y).
Proof. reflexivity. Qed.

Lemma fdiv_Fin x y : y <> 0 -> fdiv (Fin x) (Fin y) = Fin (x / y).
Proof. intros H; simpl; rewrite (Reqb_false _ _ H); reflexivity. Qed.

Lemma fmax_Fin x y : fmax (Fin x) (Fin y) = Fin (Rmax x y).
Proof.
  unfold fmax, flt, Rltb, Rmax.
  destruct (Rlt_dec x y), (Rle_dec x y); try reflexivity; f_equal; lra.
Qed.

Lemma fmax_NInf_Fin y : fmax NInf (Fin y) = Fin y.
Proof. reflexivity. Qed.

Lemma fin_series_length xs : length (fin_series xs) = length xs.
Proof. apply length_map. Qed.

(** ** compute_drawdown *)

Lemma cummax_from_fin acc xs :
  cummax_from (acc_fl acc) (fin_series xs) = fin_series (peaks acc xs).
Proof.
  revert acc; induction xs as [|[d x] t IH]; intros acc; [reflexivity|].
  simpl. destruct acc as [a|]; simpl.
  - rewrite fmax_Fin. f_equal. apply (IH (Some (Rmax a x))).
  - rewrite fmax_NInf_Fin. f_equal. apply (IH (Some x)).
Qed.

Lemma peaks_length acc xs : length (peaks acc xs) = length xs.
Proof. revert acc; induction xs as [|[d x] t IH]; intros acc; simpl; [|rewrite IH]; reflexivity. Qed.

(** With a maximum [a] carried in: [p] is the largest of [a] and of the
    values at [0..i]. *)
Lemma peaks_nth acc xs i d x :
  nth_error xs i = Some (d, x) ->
  exists p,
    nth_error (peaks acc xs) i = Some (d, p) /\
    (forall j d' y, (j <= i)%nat -> nth_error xs j = Some (d', y) -> y <= p) /\
    match acc with
    | Some a => a <= p /\ (p = a \/ exists j d', (j <= i)%nat /\ nth_error xs j = Some (d', p))
    | None => exists j d', (j <= i)%nat /\ nth_error xs j = Some (d', p)
    end.
Proof.
  revert acc i; induction xs as [|[d0 x0] t IH]; intros acc i Hn.
  - destruct i; discriminate.
  - destruct i as [|i]; simpl in Hn.
    + inversion Hn; subst d0 x0; clear Hn. simpl.
      exists (match acc with None => x | Some a => Rmax a x end).
      split; [reflexivity|]. split.
      * intros j d' y Hj Hy. assert (j = 0%nat) by lia; subst j.
        simpl in Hy; inversion Hy; subst.
        destruct acc; [apply Rmax_r | lra].
      * destruct acc as [a|].
        -- split; [apply Rmax_l|].
           unfold Rmax; destruct (Rle_dec a x); [right | left; reflexivity].
           exists 0%nat, d; split; [lia | reflexivity].
        -- exists 0%nat, d; split; [lia | reflexivity].
    + simpl.
      set (m := match acc with None => x0 | Some a => Rmax a x0 end).
      destruct (IH (Some m) i Hn) as (p & Hp & Hub & Hm & Hat).
      exists p. split; [exact Hp|]. split.
      * intros j d' y Hj Hy. destruct j as [|j]; simpl in Hy.
        -- inversion Hy; subst.
           apply Rle_trans with m; [|exact Hm].
           unfold m; destruct acc; [apply Rmax_r | lra].
        -- apply (Hub j d' y); [lia | exact Hy].
      * assert (Hshift : (exists j d', (j <= i)%nat /\ nth_error t j = Some (d', p)) ->
                         exists j d', (j <= S i)%nat /\ nth_error ((d0, x0) :: t) j = Some (d', p)).
        { intros (j & d' & Hj & Hy). exists (S j), d'. split; [lia | exact Hy]. }
        assert (Hhead : p = x0 ->
                        exists j d', (j <= S i)%nat /\ nth_error ((d0, x0) :: t) j = Some (d', p)).
        { intros ->. exists 0%nat, d0. split; [lia | reflexivity]. }
        destruct acc as [a|]; unfold m in *.
        -- split; [apply Rle_trans with (Rmax a x0); [apply Rmax_l | exact Hm]|].
           destruct Hat as [Heq | Hex]; [|right; auto].
           unfold Rmax in Heq; destruct (Rle_dec a x0); [right; auto | left; exact Heq].
        -- destruct Hat as [Heq | Hex]; auto.
Qed.

Lemma peaks_running_max xs i d x :
  nth_error xs i = Some (d, x) ->
  exists p, nth_error (peaks None xs) i = Some (d, p) /\ running_max xs i p.
Proof.
  intros Hn. destruct (peaks_nth None xs i d x Hn) as (p & Hp & Hub & Hat).
  exists p. split; [exact Hp|]. split; assumption.
Qed.

Lemma running_max_unique xs i p q :
  running_max xs i p -> running_max xs i q -> p = q.
Proof.
  intros [(j & d & Hj & Hp) Hubp] [(k & e & Hk & Hq) Hubq].
  apply Rle_antisym; [apply (Hubq j d) | apply (Hubp k e)]; assumption.
Qed.

Lemma zip_with_nth f (s t : Series) i d a e b :
  nth_error s i = Some (d, a) -> nth_error t i = Some (e, b) ->
  nth_error (zip_with f s t) i = Some (d, f a b).
Proof.
  revert t i; induction s as [|[d0 a0] s IH]; intros [|[e0 b0] t] [|i] Hs Ht;
    simpl in *; try discriminate.
  - inversion Hs; inversion Ht; reflexivity.
  - apply (IH t i Hs Ht).
Qed.

Lemma zip_with_length f (s t : Series) :
  length s = length t -> length (zip_with f s t) = length s.
Proof.
  intros H. unfold zip_with. rewrite length_map, length_combine, <- H.
  apply Nat.min_id.
Qed.

Lemma fin_series_nth xs i d x :
  nth_error xs i = Some (d, x) -> nth_error (fin_series xs) i = Some (d, Fin x).
Proof.
  intros H. unfold fin_series. rewrite nth_error_map, H. reflexivity.
Qed.

Lemma cummax_fin xs : cummax (fin_series xs) = fin_series (peaks None xs).
Proof. apply (cummax_from_fin None). Qed.

Lemma running_max_pos xs i p :
  Forall (fun q => 0 < snd q) xs -> running_max xs i p -> 0 < p.
Proof.
  intros Hpos [(j & d & _ & Hj) _].
  rewrite Forall_forall in Hpos.
  apply (Hpos (d, p)). eapply nth_error_In; exact Hj.
Qed.

(** C1. On an equity series of strictly positive values,
    [compute_drawdown] (the same function in both scripts) returns a series
    of the same length; its point [i] keeps the date and holds
    [(value - peak) / peak] for [peak] the largest value at positions
    [0..i]; that number is never positive, and the point is exactly 0
    wherever the value is itself that running maximum. *)
Theorem compute_drawdown_running_peak (xs : list (Z * R)) :
  Forall (fun q => 0 < snd q) xs ->
  length (SiteData.compute_drawdown (fin_series xs)) = length xs /\
  Landing.compute_drawdown (fin_series xs) = SiteData.compute_drawdown (fin_series xs) /\
  forall i d x, nth_error xs i = Some (d, x) ->
    exists peak,
      running_max xs i peak /\
      nth_error (SiteData.compute_drawdown (fin_series xs)) i
        = Some (d, Fin ((x - peak) / peak)) /\
      (x - peak) / peak <= 0 /\
      (running_max xs i x ->
       nth_error (SiteData.compute_drawdown (fin_series xs)) i = Some (d, Fin 0)).
Proof.
  intros Hpos. unfold SiteData.compute_drawdown, Landing.compute_drawdown.
  rewrite cummax_fin. split; [|split; [reflexivity|]].
  - rewrite !zip_with_length; rewrite ?zip_with_length;
      rewrite ?fin_series_length, ?peaks_length; auto using fin_series_length.
  - intros i d x Hn.
    destruct (peaks_running_max xs i d x Hn) as (p & Hp & Hmax).
    assert (Hp0 : 0 < p) by (eapply running_max_pos; eauto).
    assert (Hxp : x <= p) by (destruct Hmax as [_ Hub]; apply (Hub i d x); [lia | exact Hn]).
    assert (Hv : nth_error
                   (zip_with fdiv (zip_with fsub (fin_series xs) (fin_series (peaks None xs)))
                      (fin_series (peaks None xs))) i = Some (d, Fin ((x - p) / p))).
    { erewrite zip_with_nth;
        [ | eapply zip_with_nth; apply fin_series_nth; eassumption
          | apply fin_series_nth; eassumption ].
      rewrite fsub_Fin, fdiv_Fin by lra. reflexivity. }
    exists p. split; [exact Hmax|]. split; [exact Hv|]. split.
    + assert (Hi : 0 < / p) by (apply Rinv_0_lt_compat; exact Hp0).
      unfold Rdiv. nra.
    + intros Hx. rewrite Hv. rewrite (running_max_unique _ _ _ _ Hx Hmax).
      do 3 f_equal. field. lra.
Qed.

Lemma compute_drawdown_running_peak_witness :
  Forall (fun q : Z * R => 0 < snd q) [(0%Z, 100); (1%Z, 120); (2%Z, 90)] /\
  length (SiteData.compute_drawdown (fin_series [(0%Z, 100); (1%Z, 120); (2%Z, 90)])) = 3%nat.
Proof.
  assert (H : Forall (fun q : Z * R => 0 < snd q) [(0%Z, 100); (1%Z, 120); (2%Z, 90)])
    by (repeat constructor; simpl; lra).
  split; [exact H | exact (proj1 (compute_drawdown_running_peak _ H))].
Defined.

(** ** Evaluation on concrete values *)

Ltac decide_R :=
  repeat match goal with
  | |- context [Rltb ?x ?y] =>
      first [ rewrite (Rltb_true x y) by lra | rewrite (Rltb_false x y) by lra ]
  | |- context [Reqb ?x ?y] =>
      first [ rewrite (Reqb_true x y) by lra | rewrite (Reqb_false x y) by lra ]
  end.

Ltac eval_fl :=
  repeat (unfold fmax, fmin, fgt, fne, fsub, inf_of_sign;
          cbn [fadd fneg fmul fdiv fabs flt feq fsqrt
               isnan fst snd negb andb orb];
          decide_R).

Example compute_drawdown_100_120_90 :
  SiteData.compute_drawdown (fin_series [(0%Z, 100); (1%Z, 120); (2%Z, 90)])
  = fin_series [(0%Z, 0); (1%Z, 0); (2%Z, -0.25)].
Proof.
  unfold SiteData.compute_drawdown, cummax, zip_with.
  cbn [fin_series map cummax_from combine]. eval_fl.
  cbn [map combine]. eval_fl.
  repeat (f_equal; try lra).
Qed.

(** ** The CAGR computation *)

Lemma years_zero (d1 d0 : Z) : IZR (d1 - d0) / 365.25 = 0 <-> d1 = d0.
Proof.
  split.
  - intros H. assert (H0 : IZR (d1 - d0) = 0) by lra.
    apply eq_IZR_R0 in H0. lia.
  - intros ->. rewrite Z.sub_diag. lra.
Qed.

(** [cagr] raises on an empty series and when the first and the last date
    are the same day, and returns a float otherwise. *)
Lemma cagr_cases (wf : Series) :
  SiteData.cagr wf =
  match wf with
  | [] => raise IndexError
  | p :: t =>
      let q := last t p in
      if (fst q =? fst p)%Z then raise ZeroDivisionError
      else ret (fsub (fpow (fadd (Fin 1) (fsub (fdiv (snd q) (snd p)) (Fin 1)))
                           (1 / (IZR (fst q - fst p) / 365.25)))
                     (Fin 1))
  end.
Proof.
  destruct wf as [|p t]; [reflexivity|].
  unfold SiteData.cagr, SiteData.years, SiteData.total_ret, SiteData.multiple.
  cbn [first_row last_row bind ret]. unfold py_div.
  destruct (Z.eqb_spec (fst (last t p)) (fst p)) as [E|E].
  - rewrite Reqb_true by (apply years_zero; exact E). reflexivity.
  - rewrite Reqb_false by (rewrite years_zero; exact E). reflexivity.
Qed.

(** C2, counterexample. A series whose first value is -100, not strictly
    positive, over 365 days: no error is raised and a finite CAGR is
    produced. *)
Lemma cagr_negative_first_value :
  ~ 0 < -100 /\
  SiteData.cagr [(0%Z, Fin (-100)); (365%Z, Fin (-200))]
  = inr (Fin (Rpower 2 (1 / (365 / 365.25)) - 1)).
Proof.
  split; [lra|].
  rewrite cagr_cases. cbn [last fst snd Z.eqb Pos.eqb Z.sub Z.opp Z.add].
  unfold ret, fpow. eval_fl.
  replace (1 + (-200 / -100 + - (1))) with 2 by (field; lra).
  decide_R. reflexivity.
Qed.

(** C2, amended. The CAGR computation checks neither the period nor the
    first value and knows no DomainError.  It raises exactly on an empty
    series (IndexError) and when the first and the last date coincide, so
    that [years] is 0 (Python's ZeroDivisionError, from [1 / years]), in
    both cases before any CAGR is produced; on every other series, a
    negative period or a non-positive first value included, it returns the
    float [(last / first) ** (1 / years) - 1]. *)
Theorem cagr_raises_only_on_empty_or_zero_period (wf : Series) :
  (SiteData.cagr wf = raise IndexError <-> wf = []) /\
  (SiteData.cagr wf = raise ZeroDivisionError <->
   exists p t, wf = p :: t /\ fst (last t p) = fst p) /\
  (forall p t, wf = p :: t -> fst (last t p) <> fst p ->
   SiteData.years wf = ret (IZR (fst (last t p) - fst p) / 365.25) /\
   SiteData.cagr wf =
   ret (fsub (fpow (fadd (Fin 1) (fsub (fdiv (snd (last t p)) (snd p)) (Fin 1)))
                   (1 / (IZR (fst (last t p) - fst p) / 365.25)))
             (Fin 1))).
Proof.
  rewrite cagr_cases. destruct wf as [|p t].
  - split; [split; auto|]. split.
    + split; [discriminate | intros (p & t & H & _); discriminate].
    + intros p t H; discriminate.
  - cbv zeta. destruct (Z.eqb_spec (fst (last t p)) (fst p)) as [E|E].
    + split; [split; discriminate|]. split.
      * split; [intros _; exists p, t; auto | reflexivity].
      * intros p' t' H; inversion H; subst; contradiction.
    + split; [split; discriminate|]. split.
      * split; [discriminate | intros (p' & t' & H & H'); inversion H; subst; contradiction].
      * intros p' t' H _; inversion H; subst. split; reflexivity.
Qed.

Lemma cagr_raises_only_on_empty_or_zero_period_witness :
  [(0%Z, Fin 100); (365%Z, Fin 200)] = (0%Z, Fin 100) :: [(365%Z, Fin 200)] /\
  fst (last [(365%Z, Fin 200)] (0%Z, Fin 100)) <> fst (0%Z, Fin 100) /\
  SiteData.cagr [(0%Z, Fin 100); (365%Z, Fin 200)] =
  ret (fsub (fpow (fadd (Fin 1) (fsub (fdiv (Fin 200) (Fin 100)) (Fin 1)))
                  (1 / (IZR (365 - 0) / 365.25)))
            (Fin 1)).
Proof.
  split; [reflexivity|]. split; [discriminate|].
  exact (proj2 (proj2 (proj2 (cagr_raises_only_on_empty_or_zero_period
                                [(0%Z, Fin 100); (365%Z, Fin 200)]))
                 (0%Z, Fin 100) [(365%Z, Fin 200)] eq_refl
                 ltac:(discriminate))).
Defined.

(** ** Rounding *)

Lemma Int_part_unique x k : IZR k <= x < IZR k + 1 -> Int_part x = k.
Proof.
  intros [H1 H2]. unfold Int_part.
  rewrite <- (up_tech x k); [lia | exact H1 | rewrite plus_IZR; exact H2].
Qed.

Lemma Int_part_bounds x : IZR (Int_part x) <= x < IZR (Int_part x) + 1.
Proof.
  destruct (base_Int_part x) as [H1 H2]. lra.
Qed.

Lemma rint_near x k : IZR k - 1 / 2 < x < IZR k + 1 / 2 -> rint x = k.
Proof.
  intros [H1 H2]. unfold rint.
  destruct (Rlt_dec x (IZR k)) as [Hlt|Hge].
  - rewrite (Int_part_unique x (k - 1)) by (rewrite minus_IZR; lra).
    rewrite minus_IZR.
    rewrite Rltb_false by lra. rewrite Rltb_true by lra. lia.
  - rewrite (Int_part_unique x k) by lra.
    rewrite Rltb_true by lra. reflexivity.
Qed.

Lemma rint_IZR k : rint (IZR k) = k.
Proof. apply rint_near; lra. Qed.

(** Rounding a value with at most [n] decimals leaves it unchanged. *)
Lemma round_decimal k n : round (Fin (IZR k / 10 ^ n)) n = Fin (IZR k / 10 ^ n).
Proof.
  unfold round. replace (IZR k / 10 ^ n * 10 ^ n) with (IZR k).
  - rewrite rint_IZR. reflexivity.
  - field. apply pow_nonzero. lra.
Qed.

Lemma round_Fin_eq x n k :
  x * 10 ^ n = IZR k -> round (Fin x) n = Fin x.
Proof.
  intros H. unfold round. rewrite H, rint_IZR. f_equal.
  rewrite <- H. field. apply pow_nonzero. lra.
Qed.

(** ** Series of finite values *)

Lemma dropna_fin_series xs : dropna (fin_series xs) = fin_series xs.
Proof.
  unfold dropna. induction xs as [|[d x] t IH]; simpl; [|rewrite IH]; reflexivity.
Qed.

Lemma last_map {A B : Type} (f : A -> B) l d : last (map f l) (f d) = f (last l d).
Proof.
  induction l as [|a [|b l] IH]; simpl in *; auto.
Qed.


Lemma last_cons {A : Type} (a d : A) l : last (a :: l) d = last l a.
Proof.
  revert a d; induction l as [|b l IH]; intros a d; [reflexivity|].
  change (last (a :: b :: l) d) with (last (b :: l) d).
  rewrite !IH. reflexivity.
Qed.


(** ** The weekly, normalised equity curve *)

Lemma map_values_scaled x0 xs :
  x0 <> 0 ->
  map_values (fun v => fmul (fdiv v (Fin x0)) (Fin 100)) (fin_series xs)
  = fin_series (scaled x0 xs).
Proof.
  intros H0. induction xs as [|[d x] xs IH]; [reflexivity|].
  unfold map_values, fin_series, scaled in *. simpl.
  rewrite IH, (Reqb_false _ _ H0). reflexivity.
Qed.

Lemma norm_fin_series d0 x0 t :
  x0 <> 0 ->
  SiteData.norm (fin_series ((d0, x0) :: t))
  = ret (fin_series (scaled x0 ((d0, x0) :: t))).
Proof.
  intros H0. unfold SiteData.norm.
  change (first_row (fin_series ((d0, x0) :: t))) with (@ret (Z * fl) (d0, Fin x0)).
  cbn [bind ret snd]. rewrite map_values_scaled by exact H0. reflexivity.
Qed.


Lemma scaled_last x0 xs d x :
  last (scaled x0 xs) (d, x / x0 * 100) = (fst (last xs (d, x)), snd (last xs (d, x)) / x0 * 100).
Proof.
  unfold scaled.
  change (d, x / x0 * 100) with ((fun '(d, x) => (d, x / x0 * 100)) (d, x)).
  rewrite last_map. destruct (last xs (d, x)); reflexivity.
Qed.



Lemma week_of_mono a b : (a <= b)%Z -> (week_of a <= week_of b)%Z.
Proof. intros H. unfold week_of. apply Z.div_le_mono; lia. Qed.


(** ** Sums and covariances of finite values *)











(** ** Returns of a series of finite values *)

Lemma ffill_from_fin prev xs : ffill_from prev (fin_series xs) = fin_series xs.
Proof.
  revert prev; induction xs as [|[d x] t IH]; intros prev; [reflexivity|].
  cbn [fin_series map ffill_from isnan]. f_equal. apply IH.
Qed.

Lemma pct_change_from_fin prev xs :
  prev <> 0 -> Forall (fun p : Z * R => snd p <> 0) xs ->
  map_values (fun q => fsub q (Fin 1))
    (zip_with fdiv (fin_series xs) (shift_from (Fin prev) (fin_series xs)))
  = fin_series (pct_from prev xs).
Proof.
  revert prev; induction xs as [|[d x] t IH]; intros prev Hp Hxs; [reflexivity|].
  inversion Hxs as [|? ? Hx Ht]; subst. cbn [snd] in Hx.
  cbn [fin_series map shift_from zip_with combine map_values pct_from].
  rewrite fdiv_Fin by exact Hp. rewrite fsub_Fin. f_equal.
  apply (IH x Hx Ht).
Qed.

Lemma pct_change_fin pad xs :
  Forall (fun p : Z * R => snd p <> 0) xs ->
  dropna (pct_change pad (fin_series xs)) = fin_series (pct xs).
Proof.
  intros Hxs. unfold pct_change.
  replace (if pad then ffill (fin_series xs) else fin_series xs) with (fin_series xs)
    by (destruct pad; [unfold ffill; rewrite ffill_from_fin|]; reflexivity).
  destruct xs as [|[d x] t]; [reflexivity|].
  inversion Hxs as [|? ? Hx Ht]; subst. cbn [snd] in Hx.
  unfold shift. cbn [fin_series map shift_from zip_with combine map_values pct].
  cbn [fdiv fsub fneg fadd dropna filter notna snd isnan negb].
  fold (dropna
          (map (fun '(d, a) => (d, fsub a (Fin 1)))
               (map (fun '(d, a, (_, b)) => (d, fdiv a b))
                    (combine (map (fun '(d, x) => (d, Fin x)) t)
                             (shift_from (Fin x) (map (fun '(d, x) => (d, Fin x)) t)))))).
  change (dropna (map_values (fun q => fsub q (Fin 1))
            (zip_with fdiv (fin_series t) (shift_from (Fin x) (fin_series t))))
          = fin_series (pct_from x t)).
  rewrite pct_change_from_fin by assumption. apply dropna_fin_series.
Qed.

(** ** beta *)


Lemma monthly_fin pad s bins :
  resample_last month_of s = fin_series bins ->
  Forall (fun p : Z * R => snd p <> 0) bins ->
  SiteData.monthly pad s = fin_series (pct bins).
Proof.
  intros Hr Hb. unfold SiteData.monthly. rewrite Hr. apply pct_change_fin. exact Hb.
Qed.

Lemma monthly_three_month_ends pad a b c :
  a <> 0 -> b <> 0 -> c <> 0 ->
  SiteData.monthly pad (fin_series (three_month_ends a b c))
  = fin_series [(24289%Z, b / a - 1); (24290%Z, c / b - 1)].
Proof.
  intros Ha Hb Hc.
  rewrite (monthly_fin pad _ [(24288%Z, a); (24289%Z, b); (24290%Z, c)]).
  - reflexivity.
  - vm_compute. reflexivity.
  - repeat constructor; assumption.
Qed.

Lemma existsb_eqb_In k l : In k l -> existsb (Z.eqb k) l = true.
Proof.
  intros H. apply existsb_exists. exists k. split; [exact H | apply Z.eqb_refl].
Qed.


(** ** Sharpe ratio *)

Lemma values_fin_series xs : values (fin_series xs) = map Fin (map snd xs).
Proof.
  unfold values, fin_series. rewrite !map_map. apply map_ext. intros [d x]; reflexivity.
Qed.

Lemma valid_Fin l : valid (map Fin l) = map Fin l.
Proof.
  unfold valid. induction l as [|x l IH]; simpl; [|rewrite IH]; reflexivity.
Qed.












(** ** Calmar ratio *)

(** C6. [calmar] is [cagr / abs(max_dd)] for every [max_dd] other than 0
    (on finite values, the real quotient) and exactly 0 when [max_dd] is 0:
    the division is guarded and nothing is raised; in particular
    [calmar(0.15, 0.0)] is 0.  Both scripts compute it the same way. *)
Theorem calmar_guarded_division (cagr max_dd : fl) :
  (max_dd <> Fin 0 -> SiteData.calmar cagr max_dd = fdiv cagr (fabs max_dd)) /\
  (forall c m, m <> 0 -> SiteData.calmar (Fin c) (Fin m) = Fin (c / Rabs m)) /\
  SiteData.calmar cagr (Fin 0) = Fin 0 /\
  SiteData.calmar (Fin 0.15) (Fin 0.0) = Fin 0 /\
  Landing.calmar cagr max_dd = SiteData.calmar cagr max_dd.
Proof.
  assert (Hz : forall c, SiteData.calmar c (Fin 0) = Fin 0).
  { intros c. unfold SiteData.calmar, fne. cbn [feq].
    rewrite Reqb_true by reflexivity. reflexivity. }
  split; [|split; [|split; [|split; [|reflexivity]]]].
  - intros H. unfold SiteData.calmar, fne.
    destruct max_dd as [m| | |]; try reflexivity.
    cbn [feq]. rewrite Reqb_false; [reflexivity|].
    intros ->. apply H. reflexivity.
  - intros c m Hm. unfold SiteData.calmar, fne. cbn [feq fabs].
    rewrite (Reqb_false _ _ Hm). cbn [negb].
    apply fdiv_Fin. apply Rabs_no_R0. exact Hm.
  - apply Hz.
  - replace 0.0 with 0 by lra. apply Hz.
Qed.

Lemma calmar_guarded_division_witness :
  (Fin (-0.3) <> Fin 0 /\ -0.3 <> 0) /\
  SiteData.calmar (Fin 0.15) (Fin (-0.3)) = Fin (0.15 / Rabs (-0.3)).
Proof.
  assert (H : -0.3 <> 0) by lra.
  split; [split; [intros E; inversion E; lra | exact H]|].
  exact (proj1 (proj2 (calmar_guarded_division (Fin 0.15) (Fin (-0.3)))) 0.15 (-0.3) H).
Defined.

(** ** Annual returns *)

Lemma pct_index_from prev xs : map fst (pct_from prev xs) = map fst xs.
Proof.
  revert prev; induction xs as [|[d x] t IH]; intros prev; [reflexivity|].
  cbn [pct_from map fst]. f_equal. apply IH.
Qed.

Lemma pct_index xs : map fst (pct xs) = tl (map fst xs).
Proof. destruct xs as [|[d x] t]; [reflexivity|]. apply pct_index_from. Qed.

Lemma annual_returns_fin pad equity ys :
  resample_last year_of equity = fin_series ys ->
  Forall (fun p : Z * R => snd p <> 0) ys ->
  SiteData.compute_annual_returns pad equity
  = map (fun '(y, r) => (y, round (Fin (r * 100)) 1)) (pct ys).
Proof.
  intros Hr Hys. unfold SiteData.compute_annual_returns.
  rewrite Hr, pct_change_fin by exact Hys.
  unfold fin_series. rewrite map_map. apply map_ext. intros [y r]. reflexivity.
Qed.


(** ** Win rate *)

(** The rows of [a] at the labels it shares with [l]. *)
Lemma loc_intersection (a : Series) (l : list Z) :
  loc a (intersection (index a) l)
  = filter (fun p => existsb (Z.eqb (fst p)) l) a.
Proof.
  unfold loc. apply filter_ext_in. intros p Hp.
  destruct (existsb (Z.eqb (fst p)) l) eqn:E.
  - apply existsb_eqb_In. unfold intersection. apply filter_In. split.
    + unfold index. apply in_map. exact Hp.
    + exact E.
  - apply not_true_is_false. intros H.
    apply existsb_exists in H. destruct H as (k & Hk & Hek).
    apply Z.eqb_eq in Hek. subst k.
    unfold intersection in Hk. apply filter_In in Hk. destruct Hk as [_ Hk].
    rewrite Hk in E. discriminate.
Qed.

Lemma share_positive_fin_series xs :
  xs <> [] ->
  share_positive (fin_series xs)
  = Fin (INR (length (filter (fun p : Z * R => Rltb 0 (snd p)) xs)) / INR (length xs)).
Proof.
  intros Hne. unfold share_positive, count.
  assert (Hl : length (filter (fun a => fgt a (Fin 0)) (values (fin_series xs)))
               = length (filter (fun p : Z * R => Rltb 0 (snd p)) xs)).
  { clear Hne. induction xs as [|[d x] t IH]; [reflexivity|].
    cbn [fin_series map values filter snd]. unfold fgt at 1. cbn [flt].
    destruct (Rltb 0 x); cbn [length]; f_equal; exact IH. }
  rewrite Hl. unfold values. rewrite length_map, fin_series_length.
  apply fdiv_Fin. apply not_0_INR. destruct xs; [contradiction | discriminate].
Qed.

(** ** Powers with a small exponent *)





(** ** CAGR and alpha on finite values *)

Lemma fin_series_last_row xs d x :
  last (fin_series xs) (d, Fin x) = (fst (last xs (d, x)), Fin (snd (last xs (d, x)))).
Proof.
  unfold fin_series.
  change (d, Fin x) with ((fun '(d, x) => (d, Fin x)) (d, x)).
  rewrite last_map. destruct (last xs (d, x)); reflexivity.
Qed.

Lemma fpow_pos x e : 0 < x -> e <> 0 -> fpow (Fin x) e = Fin (Rpower x e).
Proof.
  intros Hx He. unfold fpow. rewrite (Reqb_false _ _ He), (Rltb_true _ _ Hx). reflexivity.
Qed.

Lemma annualise_exponent (dz : Z) : dz <> 0%Z -> 1 / (IZR dz / 365.25) = 365.25 / IZR dz.
Proof.
  intros H. assert (IZR dz <> 0) by (apply not_0_IZR; exact H).
  field. split; [assumption | lra].
Qed.

Lemma annualise_exponent_nonzero (dz : Z) : dz <> 0%Z -> 365.25 / IZR dz <> 0.
Proof.
  intros H. assert (IZR dz <> 0) by (apply not_0_IZR; exact H).
  unfold Rdiv. apply Rmult_integral_contrapositive_currified; [lra|].
  apply Rinv_neq_0_compat. assumption.
Qed.

(** The CAGR of a series whose last value over first value is a positive
    real: that ratio to the power [365.25 / days], minus 1. *)
Lemma cagr_fin_series d0 x0 t :
  fst (last t (d0, x0)) <> d0 -> x0 <> 0 -> 0 < snd (last t (d0, x0)) / x0 ->
  SiteData.cagr (fin_series ((d0, x0) :: t))
  = ret (Fin (Rpower (snd (last t (d0, x0)) / x0)
                     (365.25 / IZR (fst (last t (d0, x0)) - d0)) - 1)).
Proof.
  intros Hd H0 Hr. rewrite cagr_cases.
  change (fin_series ((d0, x0) :: t)) with ((d0, Fin x0) :: fin_series t).
  cbv beta iota zeta. rewrite fin_series_last_row. cbn [fst snd].
  destruct (Z.eqb_spec (fst (last t (d0, x0))) d0) as [E|E]; [contradiction|].
  assert (Hz : (fst (last t (d0, x0)) - d0 <> 0)%Z) by lia.
  rewrite annualise_exponent by exact Hz.
  rewrite fdiv_Fin by exact H0. rewrite fsub_Fin. cbn [fadd].
  replace (1 + (snd (last t (d0, x0)) / x0 - 1)) with (snd (last t (d0, x0)) / x0) by ring.
  rewrite fpow_pos by (auto using annualise_exponent_nonzero).
  rewrite fsub_Fin. reflexivity.
Qed.

(** The benchmark's CAGR: its own ratio, over the strategy's period. *)
Lemma nifty_cagr_fin_series d0 x0 t e0 y0 u :
  fst (last t (d0, x0)) <> d0 -> y0 <> 0 -> 0 < snd (last u (e0, y0)) / y0 ->
  SiteData.nifty_cagr (fin_series ((d0, x0) :: t)) (fin_series ((e0, y0) :: u))
  = ret (Fin (Rpower (snd (last u (e0, y0)) / y0)
                     (365.25 / IZR (fst (last t (d0, x0)) - d0)) - 1)).
Proof.
  intros Hd H0 Hr.
  unfold SiteData.nifty_cagr, SiteData.years, SiteData.total_ret, SiteData.multiple.
  change (fin_series ((d0, x0) :: t)) with ((d0, Fin x0) :: fin_series t).
  change (fin_series ((e0, y0) :: u)) with ((e0, Fin y0) :: fin_series u).
  cbn [first_row last_row bind ret]. rewrite !fin_series_last_row. cbn [fst snd].
  assert (Hz : (fst (last t (d0, x0)) - d0 <> 0)%Z) by lia.
  unfold py_div. rewrite Reqb_false by (rewrite years_zero; exact Hd).
  cbn [bind ret]. rewrite annualise_exponent by exact Hz.
  rewrite fdiv_Fin by exact H0. rewrite fsub_Fin. cbn [fadd].
  replace (1 + (snd (last u (e0, y0)) / y0 - 1)) with (snd (last u (e0, y0)) / y0) by ring.
  rewrite fpow_pos by (auto using annualise_exponent_nonzero).
  rewrite fsub_Fin. reflexivity.
Qed.





(** ** The two scripts *)

Lemma trunc_IZR k : trunc (IZR k) = k.
Proof.
  unfold trunc. destruct (Rlt_dec (IZR k) 0) as [H|H].
  - rewrite (Rltb_true _ _ H). rewrite <- opp_IZR.
    rewrite (Int_part_unique (IZR (- k)) (- k)) by lra. lia.
  - rewrite (Rltb_false _ _ H). apply Int_part_unique. lra.
Qed.

(** [round(x, 0)] is an integer, which [int] returns unchanged; only NaN
    and the infinities make [int] raise. *)
Lemma py_int_round0 (a : fl) :
  (exists k, round a 0 = Fin (IZR k) /\ py_int (round a 0) = ret k) \/
  (round a 0 = a /\ (a = NaN \/ a = PInf \/ a = NInf)).
Proof.
  destruct a as [x| | |]; [left | right; auto..].
  exists (rint (x * 10 ^ 0)). unfold round, py_int.
  replace (IZR (rint (x * 10 ^ 0)) / 10 ^ 0) with (IZR (rint (x * 10 ^ 0)))
    by (simpl; field).
  rewrite trunc_IZR. split; reflexivity.
Qed.

(** A share is a number or, on an empty Series, NaN. *)
Lemma share_positive_cases (s : Series) :
  (exists x, share_positive s = Fin x) \/ share_positive s = NaN.
Proof.
  unfold share_positive, count. cbn [fdiv].
  destruct (Req_dec_T (INR (length (values s))) 0) as [E|E].
  - right. rewrite (Reqb_true _ _ E).
    assert (Hl : length (values s) = 0%nat) by (apply INR_eq; exact E).
    destruct (values s); [|discriminate]. cbn [filter length INR].
    rewrite Reqb_true by reflexivity. reflexivity.
  - left. rewrite (Reqb_false _ _ E). eexists; reflexivity.
Qed.

Lemma win_rate_cases pad wf nifty :
  (exists k, SiteData.win_rate pad wf nifty = Fin (IZR k) /\
             py_int (SiteData.win_rate pad wf nifty) = ret k) \/
  (SiteData.win_rate pad wf nifty = NaN /\
   py_int (SiteData.win_rate pad wf nifty) = raise ValueError).
Proof.
  unfold SiteData.win_rate.
  destruct (share_positive_cases
              (loc (SiteData.monthly pad wf) (SiteData.common_m pad wf nifty)))
    as [[x ->] | ->].
  - cbn [fmul]. destruct (py_int_round0 (Fin (x * 100))) as [H | [_ [H | [H | H]]]];
      [left; exact H | discriminate..].
  - right. split; reflexivity.
Qed.

(** X18. The two scripts compute every metric they share by the same
    function of the input table, and their runs agree: whenever [generate]
    returns, [generate_landing] returns the same values for CAGR, maximum
    drawdown, Sharpe, Calmar, alpha, beta, multiple, years, win rate, the
    weekly normalised equity curves and the annual returns; whenever
    [generate_landing] returns, [generate] returns these same values,
    unless the win rate is NaN (no common month), which [int(win_rate)]
    in [generate] rejects with a ValueError; and whenever
    [generate_landing] raises, [generate] raises the same exception. *)
Theorem scripts_compute_same_metrics (pad : bool) (curves : Curves) :
  (forall s : Series,
     Landing.cagr s = SiteData.cagr s /\
     Landing.max_dd s = SiteData.max_dd s /\
     Landing.sharpe pad s = SiteData.sharpe pad s /\
     Landing.multiple s = SiteData.multiple s /\
     Landing.compute_annual_returns pad s = SiteData.compute_annual_returns pad s /\
     Landing.norm s = SiteData.norm s /\
     Landing.curve (Landing.weekly s) = SiteData.curve (SiteData.weekly s)) /\
  (forall s t : Series,
     Landing.nifty_cagr s t = SiteData.nifty_cagr s t /\
     Landing.beta pad s t = SiteData.beta pad s t /\
     Landing.win_rate pad s t = SiteData.win_rate pad s t) /\
  (forall a b : fl,
     Landing.calmar a b = SiteData.calmar a b /\
     Landing.alpha a b = SiteData.alpha a b) /\
  (forall sd, SiteData.generate pad curves = ret sd ->
     exists ld, Landing.generate_landing pad curves = ret ld /\ same_metrics sd ld) /\
  (forall ld, Landing.generate_landing pad curves = ret ld ->
     (exists sd, SiteData.generate pad curves = ret sd /\ same_metrics sd ld) \/
     (Landing.landing_win_rate ld = NaN /\
      SiteData.generate pad curves = raise ValueError)) /\
  (forall e, Landing.generate_landing pad curves = raise e ->
     SiteData.generate pad curves = raise e).
Proof.
  split; [intros s; repeat split|].
  split; [intros s t; repeat split|].
  split; [intros a b; split; reflexivity|].
  unfold SiteData.generate, Landing.generate_landing.
  change Landing.wf with SiteData.wf. change Landing.nifty with SiteData.nifty.
  change Landing.years with SiteData.years. change Landing.cagr with SiteData.cagr.
  change Landing.max_dd with SiteData.max_dd. change Landing.sharpe with SiteData.sharpe.
  change Landing.calmar with SiteData.calmar.
  change Landing.multiple with SiteData.multiple.
  change Landing.nifty_cagr with SiteData.nifty_cagr.
  change Landing.alpha with SiteData.alpha. change Landing.beta with SiteData.beta.
  change Landing.norm with SiteData.norm. change Landing.weekly with SiteData.weekly.
  change Landing.curve with SiteData.curve.
  change Landing.win_rate with SiteData.win_rate.
  change Landing.compute_annual_returns with SiteData.compute_annual_returns.
  unfold SiteData.nifty.
  destruct (SiteData.wf curves) as [|p t];
    [cbn [first_row bind raise];
     split; [discriminate | split; [discriminate | intros e H; inversion H; reflexivity]]|].
  cbn [first_row last_row bind ret].
  generalize (dropna (loc_range (NIFTY_100pct curves) (fst p) (fst (last t p)))).
  intros nifty.
  rewrite cagr_cases. unfold SiteData.years. cbn [first_row last_row bind ret].
  cbv zeta.
  destruct (Z.eqb_spec (fst (last t p)) (fst p)) as [E|E];
    [cbn [bind raise];
     split; [discriminate | split; [discriminate | intros e H; inversion H; reflexivity]]|].
  cbn [bind ret]. unfold SiteData.multiple at 1 3. cbn [first_row last_row bind ret].
  destruct (SiteData.nifty_cagr (p :: t) nifty) as [e|nc] eqn:Hnc;
    [cbn [bind];
     split; [discriminate | split; [discriminate | intros e' H; inversion H; reflexivity]]|].
  cbn [bind].
  assert (Hnorm : exists q u, nifty = q :: u).
  { destruct nifty as [|q u]; [|eauto]. 
    unfold SiteData.nifty_cagr, SiteData.years, SiteData.total_ret, SiteData.multiple in Hnc.
    cbn in Hnc. discriminate. }
  destruct Hnorm as (q & u & ->).
  unfold SiteData.norm. cbn [first_row bind ret].
  destruct (win_rate_cases pad (p :: t) (q :: u)) as [(k & Hk & Hint) | [Hnan Hint]];
    rewrite Hint; cbn [bind ret raise].
  - split; [|split; [|discriminate]].
    + intros sd H. inversion H; subst sd; clear H. eexists. split; [reflexivity|].
      unfold same_metrics. cbn. rewrite Hk. repeat split; reflexivity.
    + intros ld H. inversion H; subst ld; clear H. left. eexists. split; [reflexivity|].
      unfold same_metrics. cbn. rewrite Hk. repeat split; reflexivity.
  - split; [discriminate | split; [|discriminate]].
    intros ld H. inversion H; subst ld; clear H. right. split; [exact Hnan | reflexivity].
Qed.

(** [generate] returns as soon as the strategy has two distinct dates, the
    benchmark has a value in between and there is a common month. *)
Lemma generate_returns pad curves p t q u :
  SiteData.wf curves = p :: t ->
  fst (last t p) <> fst p ->
  dropna (loc_range (NIFTY_100pct curves) (fst p) (fst (last t p))) = q :: u ->
  SiteData.win_rate pad (p :: t) (q :: u) <> NaN ->
  exists sd, SiteData.generate pad curves = ret sd.
Proof.
  intros Hwf Hd Hn Hw. unfold SiteData.generate, SiteData.nifty.
  rewrite Hwf. cbn [first_row last_row bind ret]. rewrite Hn.
  rewrite cagr_cases. unfold SiteData.years. cbn [first_row last_row bind ret].
  cbv zeta.
  destruct (Z.eqb_spec (fst (last t p)) (fst p)) as [E|E]; [contradiction|].
  cbn [bind ret]. unfold SiteData.multiple at 1. cbn [first_row last_row bind ret].
  unfold SiteData.nifty_cagr, SiteData.years, SiteData.total_ret, SiteData.multiple.
  cbn [first_row last_row bind ret]. unfold py_div.
  rewrite Reqb_false by (rewrite years_zero; exact Hd). cbn [bind ret].
  destruct (win_rate_cases pad (p :: t) (q :: u)) as [(k & Hk & Hint) | [Hnan _]];
    [|contradiction].
  rewrite Hint. cbn [bind ret]. unfold SiteData.norm. cbn [first_row bind ret].
  eexists. reflexivity.
Qed.

Lemma win_rate_three_months :
  SiteData.win_rate true (fin_series (three_month_ends 100 110 99))
                         (fin_series (three_month_ends 50 40 30)) = Fin 50.
Proof.
  unfold SiteData.win_rate, SiteData.common_m.
  rewrite loc_intersection.
  rewrite (monthly_three_month_ends true 100 110 99) by lra.
  rewrite (monthly_three_month_ends true 50 40 30) by lra.
  change (filter _ (fin_series [(24289%Z, 110 / 100 - 1); (24290%Z, 99 / 110 - 1)]))
    with (fin_series [(24289%Z, 110 / 100 - 1); (24290%Z, 99 / 110 - 1)]).
  rewrite share_positive_fin_series by discriminate.
  cbn [filter snd].
  rewrite (Rltb_true 0 (110 / 100 - 1)) by lra.
  rewrite (Rltb_false 0 (99 / 110 - 1)) by lra.
  cbn [length fmul]. replace (INR 1 / INR 2 * 100) with 50 by (simpl; lra).
  apply (round_Fin_eq _ 0 50). simpl. lra.
Qed.

Lemma scripts_compute_same_metrics_witness :
  exists sd ld,
    SiteData.generate true three_months_table = ret sd /\
    Landing.generate_landing true three_months_table = ret ld /\
    same_metrics sd ld.
Proof.
  destruct (generate_returns true three_months_table
              (days_from_civil 2024 1 31, Fin 100)
              [(days_from_civil 2024 2 29, Fin 110); (days_from_civil 2024 3 31, Fin 99)]
              (days_from_civil 2024 1 31, Fin 50)
              [(days_from_civil 2024 2 29, Fin 40); (days_from_civil 2024 3 31, Fin 30)])
    as [sd Hsd].
  - reflexivity.
  - cbn [last fst]. discriminate.
  - reflexivity.
  - change (SiteData.win_rate true (fin_series (three_month_ends 100 110 99))
                                   (fin_series (three_month_ends 50 40 30)) <> NaN).
    rewrite win_rate_three_months. discriminate.
  - destruct (proj1 (proj2 (proj2 (proj2
                (scripts_compute_same_metrics true three_months_table)))) sd Hsd)
      as (ld & Hld & Hsame).
    exists sd, ld. split; [exact Hsd | split; [exact Hld | exact Hsame]].
Defined.

(** ** Maximum drawdown *)

Lemma zip_drawdown xs ps :
  Forall (fun p : Z * R => snd p <> 0) ps ->
  zip_with fdiv (zip_with fsub (fin_series xs) (fin_series ps)) (fin_series ps)
  = fin_series (map (fun '((d, x), (_, p)) => (d, (x - p) / p)) (combine xs ps)).
Proof.
  revert ps; induction xs as [|[d x] xs IH]; intros [|[e p] ps] H; try reflexivity.
  inversion H as [|? ? Hp Hps]; subst. cbn [snd] in Hp.
  cbn [fin_series map combine zip_with]. rewrite fsub_Fin, fdiv_Fin by exact Hp.
  f_equal. apply (IH ps Hps).
Qed.

Lemma peaks_pos acc xs :
  match acc with Some a => 0 < a | None => True end ->
  Forall (fun q : Z * R => 0 < snd q) xs ->
  Forall (fun q : Z * R => 0 < snd q) (peaks acc xs).
Proof.
  revert acc; induction xs as [|[d x] xs IH]; intros acc Ha H; [constructor|].
  inversion H as [|? ? Hx Hxs]; subst. cbn [snd] in Hx.
  cbn [peaks].
  assert (Hm : 0 < match acc with None => x | Some a => Rmax a x end).
  { destruct acc as [a|]; [|exact Hx]. apply Rlt_le_trans with x; [exact Hx | apply Rmax_r]. }
  constructor; [exact Hm|]. apply IH; [exact Hm | exact Hxs].
Qed.

Lemma compute_drawdown_fin xs :
  Forall (fun q : Z * R => 0 < snd q) xs ->
  SiteData.compute_drawdown (fin_series xs) = fin_series (drawdowns xs).
Proof.
  intros H. unfold SiteData.compute_drawdown. rewrite cummax_fin.
  apply zip_drawdown.
  eapply Forall_impl; [|apply (peaks_pos None xs I H)].
  intros q Hq. lra.
Qed.

Lemma drawdowns_bounds_from acc xs :
  match acc with Some a => 0 < a | None => True end ->
  Forall (fun q : Z * R => 0 < snd q) xs ->
  Forall (fun q : Z * R => -1 < snd q <= 0)
         (map (fun '((d, x), (_, p)) => (d, (x - p) / p)) (combine xs (peaks acc xs))).
Proof.
  revert acc; induction xs as [|[d x] xs IH]; intros acc Ha H; [constructor|].
  inversion H as [|? ? Hx Hxs]; subst. cbn [snd] in Hx.
  cbn [peaks combine map].
  set (m := match acc with None => x | Some a => Rmax a x end).
  assert (Hxm : x <= m) by (unfold m; destruct acc; [apply Rmax_r | lra]).
  assert (Hm : 0 < m) by lra.
  constructor.
  - cbn [snd]. assert (Hi : 0 < / m) by (apply Rinv_0_lt_compat; exact Hm).
    split.
    + apply (Rmult_lt_reg_r m); [exact Hm|]. unfold Rdiv.
      rewrite Rmult_assoc, Rinv_l by lra. lra.
    + unfold Rdiv. nra.
  - apply (IH (Some m)); [exact Hm | exact Hxs].
Qed.

Lemma fmin_Fin x y : fmin (Fin x) (Fin y) = Fin (Rmin x y).
Proof.
  unfold fmin, flt, Rltb, Rmin.
  destruct (Rlt_dec y x), (Rle_dec x y); try reflexivity; f_equal; lra.
Qed.

Lemma fold_fmin_Fin l a :
  fold_left fmin (map Fin l) (Fin a) = Fin (fold_left Rmin l a).
Proof.
  revert a; induction l as [|x l IH]; intros a; [reflexivity|].
  cbn [map fold_left]. rewrite fmin_Fin. apply IH.
Qed.

(** The least of [a :: l]: one of them, below all of them. *)
Lemma fold_Rmin_least l a :
  In (fold_left Rmin l a) (a :: l) /\
  forall y, In y (a :: l) -> fold_left Rmin l a <= y.
Proof.
  revert a; induction l as [|x l IH]; intros a.
  - split; [left; reflexivity | intros y [<- | []]; cbn; lra].
  - cbn [fold_left]. destruct (IH (Rmin a x)) as [Hin Hle]. split.
    + destruct Hin as [Hin | Hin]; [|right; right; exact Hin].
      rewrite <- Hin. unfold Rmin. destruct (Rle_dec a x); [left | right; left]; reflexivity.
    + intros y [<- | [<- | Hy]].
      * apply Rle_trans with (Rmin a x); [apply Hle; left; reflexivity | apply Rmin_l].
      * apply Rle_trans with (Rmin a x); [apply Hle; left; reflexivity | apply Rmin_r].
      * apply Hle. right; exact Hy.
Qed.

Lemma smin_fin_series d x xs :
  smin (fin_series ((d, x) :: xs)) = Fin (fold_left Rmin (map snd xs) x).
Proof.
  unfold smin. rewrite values_fin_series, valid_Fin. cbn [map snd].
  apply fold_fmin_Fin.
Qed.

(** X1. On a non-empty series of strictly positive values, the maximum
    drawdown [dd.min()] is a finite number from -1 to 0: one of the
    drawdowns, below all of them. *)
Theorem max_dd_between_minus_one_and_zero (xs : list (Z * R)) :
  xs <> [] ->
  Forall (fun q : Z * R => 0 < snd q) xs ->
  exists m,
    SiteData.max_dd (fin_series xs) = Fin m /\
    -1 <= m <= 0 /\
    In m (map snd (drawdowns xs)) /\
    (forall d v, In (d, Fin v) (SiteData.compute_drawdown (fin_series xs)) -> m <= v).
Proof.
  intros Hne Hpos.
  pose proof (compute_drawdown_fin xs Hpos) as Hdd.
  pose proof (drawdowns_bounds_from None xs I Hpos) as Hb. fold (drawdowns xs) in Hb.
  unfold SiteData.max_dd, SiteData.dd. rewrite Hdd.
  destruct (drawdowns xs) as [|[d0 v0] ds] eqn:E.
  { destruct xs as [|[d x] xs]; [contradiction | discriminate E]. }
  rewrite smin_fin_series.
  destruct (fold_Rmin_least (map snd ds) v0) as [Hin Hle].
  exists (fold_left Rmin (map snd ds) v0).
  split; [reflexivity|]. split; [|split].
  - rewrite Forall_forall in Hb.
    change (v0 :: map snd ds) with (map snd ((d0, v0) :: ds)) in Hin.
    apply in_map_iff in Hin. destruct Hin as (q & Hq & Hin).
    rewrite <- Hq. specialize (Hb q Hin). cbv beta in Hb. lra.
  - exact Hin.
  - intros d v Hv. apply Hle.
    change (v0 :: map snd ds) with (map snd ((d0, v0) :: ds)).
    unfold fin_series in Hv. apply in_map_iff in Hv.
    destruct Hv as ([e w] & Hw & Hv). inversion Hw; subst.
    apply in_map_iff. exists (d, v). split; [reflexivity | exact Hv].
Qed.

Lemma max_dd_between_minus_one_and_zero_witness :
  ([(0%Z, 100); (1%Z, 120); (2%Z, 90)] <> [] /\
   Forall (fun q : Z * R => 0 < snd q) [(0%Z, 100); (1%Z, 120); (2%Z, 90)]) /\
  exists m, SiteData.max_dd (fin_series [(0%Z, 100); (1%Z, 120); (2%Z, 90)]) = Fin m /\
            -1 <= m <= 0.
Proof.
  assert (Hne : [(0%Z, 100); (1%Z, 120); (2%Z, 90)] <> @nil (Z * R)) by discriminate.
  assert (H : Forall (fun q : Z * R => 0 < snd q) [(0%Z, 100); (1%Z, 120); (2%Z, 90)])
    by (repeat constructor; simpl; lra).
  split; [split; [exact Hne | exact H]|].
  destruct (max_dd_between_minus_one_and_zero _ Hne H) as (m & Hm & Hb & _).
  exists m. split; [exact Hm | exact Hb].
Defined.

Lemma drawdowns_zero_from acc xs :
  match acc with Some a => 0 < a | None => True end ->
  Forall (fun q : Z * R => 0 < snd q) xs ->
  (Forall (fun q : Z * R => snd q = 0)
          (map (fun '((d, x), (_, p)) => (d, (x - p) / p)) (combine xs (peaks acc xs)))
   <->
   (match acc with Some a => Forall (fun x => a <= x) (map snd xs) | None => True end
    /\ StronglySorted Rle (map snd xs))).
Proof.
  revert acc; induction xs as [|[d x] xs IH]; intros acc Ha H.
  - cbn. split; [intros _; split; [destruct acc; constructor | constructor] | constructor].
  - inversion H as [|? ? Hx Hxs]; subst. cbn [snd] in Hx.
    cbn [peaks combine map snd].
    set (m := match acc with None => x | Some a => Rmax a x end).
    assert (Hxm : x <= m) by (unfold m; destruct acc; [apply Rmax_r | lra]).
    assert (Hm : 0 < m) by lra.
    assert (Hz : (x - m) / m = 0 <-> x = m).
    { split; [|intros E; rewrite E; unfold Rdiv; ring].
      intros E. assert (E' : (x - m) / m * m = 0) by (rewrite E; ring).
      unfold Rdiv in E'. rewrite Rmult_assoc, Rinv_l in E' by lra. lra. }
    specialize (IH (Some m) Hm Hxs). cbn beta iota in IH.
    split.
    + intros HF. apply Forall_cons_iff in HF. destruct HF as [H0 Hrest]. cbn [snd] in H0.
      apply Hz in H0. apply IH in Hrest. destruct Hrest as [Hge Hss].
      rewrite <- H0 in Hge.
      split.
      * destruct acc as [a|]; [|exact I].
        assert (Hax : a <= x) by (unfold m in H0; rewrite H0; apply Rmax_l).
        constructor; [exact Hax|].
        eapply Forall_impl; [|exact Hge]. intros y Hy; cbn in Hy; lra.
      * constructor; [exact Hss | exact Hge].
    + intros [Hacc Hss]. apply StronglySorted_inv in Hss. destruct Hss as [Hss' Hge].
      assert (E : x = m).
      { unfold m. destruct acc as [a|]; [|reflexivity].
        apply Forall_inv in Hacc. rewrite Rmax_right by exact Hacc. reflexivity. }
      constructor; [cbn [snd]; apply Hz; exact E|].
      apply IH. rewrite <- E. split; assumption.
Qed.

(** X2. On a non-empty series of strictly positive values, the maximum
    drawdown is 0 exactly when the series never falls (its values are in
    non-decreasing order); [calmar] is then 0 whatever the CAGR. *)
Theorem max_dd_zero_iff_never_falls (xs : list (Z * R)) (cagr : fl) :
  xs <> [] ->
  Forall (fun q : Z * R => 0 < snd q) xs ->
  (SiteData.max_dd (fin_series xs) = Fin 0 <-> StronglySorted Rle (map snd xs)) /\
  (StronglySorted Rle (map snd xs) ->
   SiteData.calmar cagr (SiteData.max_dd (fin_series xs)) = Fin 0).
Proof.
  intros Hne Hpos.
  pose proof (compute_drawdown_fin xs Hpos) as Hdd.
  pose proof (drawdowns_bounds_from None xs I Hpos) as Hb. fold (drawdowns xs) in Hb.
  pose proof (drawdowns_zero_from None xs I Hpos) as Hz. fold (drawdowns xs) in Hz.
  assert (Hmax : SiteData.max_dd (fin_series xs) = Fin 0
                 <-> Forall (fun q : Z * R => snd q = 0) (drawdowns xs)).
  { unfold SiteData.max_dd, SiteData.dd. rewrite Hdd.
    destruct (drawdowns xs) as [|[d0 v0] ds] eqn:E.
    { destruct xs as [|[d x] xs]; [contradiction | discriminate E]. }
    rewrite smin_fin_series.
    destruct (fold_Rmin_least (map snd ds) v0) as [Hin Hle].
    rewrite Forall_forall in Hb. split.
    - intros Hm. inversion Hm as [Hm']. rewrite Hm' in Hle.
      apply Forall_forall. intros q Hq.
      assert (0 <= snd q) by (apply Hle; change (In (snd q) (map snd ((d0, v0) :: ds)));
                              apply in_map; exact Hq).
      pose proof (Hb q Hq). lra.
    - intros Hall. f_equal. rewrite Forall_forall in Hall.
      change (v0 :: map snd ds) with (map snd ((d0, v0) :: ds)) in Hin.
      apply in_map_iff in Hin. destruct Hin as (q & Hq & Hin).
      rewrite <- Hq. apply Hall. exact Hin. }
  assert (Hiff : SiteData.max_dd (fin_series xs) = Fin 0
                 <-> StronglySorted Rle (map snd xs)).
  { rewrite Hmax, Hz. tauto. }
  split; [exact Hiff|].
  intros Hs. apply Hiff in Hs. rewrite Hs.
  unfold SiteData.calmar, fne. cbn [feq]. rewrite Reqb_true by reflexivity. reflexivity.
Qed.

Lemma max_dd_zero_iff_never_falls_witness :
  ([(0%Z, 100); (1%Z, 100); (2%Z, 130)] <> [] /\
   Forall (fun q : Z * R => 0 < snd q) [(0%Z, 100); (1%Z, 100); (2%Z, 130)] /\
   StronglySorted Rle (map snd [(0%Z, 100); (1%Z, 100); (2%Z, 130)])) /\
  SiteData.calmar (Fin 0.15) (SiteData.max_dd (fin_series [(0%Z, 100); (1%Z, 100); (2%Z, 130)]))
  = Fin 0.
Proof.
  assert (Hne : [(0%Z, 100); (1%Z, 100); (2%Z, 130)] <> @nil (Z * R)) by discriminate.
  assert (H : Forall (fun q : Z * R => 0 < snd q) [(0%Z, 100); (1%Z, 100); (2%Z, 130)])
    by (repeat constructor; simpl; lra).
  assert (Hs : StronglySorted Rle (map snd [(0%Z, 100); (1%Z, 100); (2%Z, 130)]))
    by (repeat constructor; simpl; lra).
  split; [split; [exact Hne | split; [exact H | exact Hs]]|].
  exact (proj2 (max_dd_zero_iff_never_falls _ (Fin 0.15) Hne H) Hs).
Defined.

(** ** The sign of the CAGR *)

Lemma Rpower_one e : Rpower 1 e = 1.
Proof. unfold Rpower. rewrite ln_1, Rmult_0_r. apply exp_0. Qed.

Lemma Rpower_ge_one r e : 1 <= r -> 0 <= e -> 1 <= Rpower r e.
Proof.
  intros Hr He. pose proof (Rle_Rpower_l 1 r e He) as H.
  rewrite Rpower_one in H. apply H. lra.
Qed.

Lemma Rpower_le_one r e : 0 < r <= 1 -> 0 <= e -> Rpower r e <= 1.
Proof.
  intros Hr He. pose proof (Rle_Rpower_l r 1 e He) as H.
  rewrite Rpower_one in H. apply H. lra.
Qed.

Lemma Rpower_le_compat_l a b e : 0 < a <= b -> 0 <= e -> Rpower a e <= Rpower b e.
Proof. intros H He. apply Rle_Rpower_l; lra. Qed.

Lemma ratio_le_one x y : 0 < y -> (x / y <= 1 <-> x <= y).
Proof.
  intros Hy. split; intros H.
  - apply (Rmult_le_compat_r y) in H; [|lra].
    unfold Rdiv in H. rewrite Rmult_assoc, Rinv_l in H by lra. lra.
  - apply (Rmult_le_reg_r y); [exact Hy|].
    unfold Rdiv. rewrite Rmult_assoc, Rinv_l by lra. lra.
Qed.

Lemma ratio_ge_one x y : 0 < y -> (1 <= x / y <-> y <= x).
Proof.
  intros Hy. split; intros H.
  - apply (Rmult_le_compat_r y) in H; [|lra].
    unfold Rdiv in H. rewrite Rmult_assoc, Rinv_l in H by lra. lra.
  - apply (Rmult_le_reg_r y); [exact Hy|].
    unfold Rdiv. rewrite Rmult_assoc, Rinv_l by lra. lra.
Qed.

(** X3. On a series that starts and ends with positive values, over a
    period of at least 365 days: the CAGR [c] is a finite number, not below
    -1; it is not negative when the series ends at or above its first
    value, not positive when it ends at or below it, and 0 when it ends on
    it.  The landing script computes the same number. *)
Theorem cagr_sign_and_floor (d0 : Z) (x0 : R) (t : list (Z * R)) :
  (365 <= fst (last t (d0, x0)) - d0)%Z ->
  0 < x0 -> 0 < snd (last t (d0, x0)) ->
  exists c,
    SiteData.cagr (fin_series ((d0, x0) :: t)) = ret (Fin c) /\
    Landing.cagr (fin_series ((d0, x0) :: t)) = ret (Fin c) /\
    -1 <= c /\
    (x0 <= snd (last t (d0, x0)) -> 0 <= c) /\
    (snd (last t (d0, x0)) <= x0 -> c <= 0) /\
    (snd (last t (d0, x0)) = x0 -> c = 0).
Proof.
  intros Hd H0 Hl.
  set (xl := snd (last t (d0, x0))) in *.
  set (dl := fst (last t (d0, x0))) in *.
  assert (Hr : 0 < xl / x0) by (apply Rdiv_lt_0_compat; assumption).
  assert (Hdz : 0 < IZR (dl - d0)) by (apply IZR_lt; lia).
  assert (He : 0 < 365.25 / IZR (dl - d0)) by (apply Rdiv_lt_0_compat; lra).
  assert (Hc : SiteData.cagr (fin_series ((d0, x0) :: t))
               = ret (Fin (Rpower (xl / x0) (365.25 / IZR (dl - d0)) - 1)))
    by (apply cagr_fin_series; [fold dl; lia | lra | exact Hr]).
  exists (Rpower (xl / x0) (365.25 / IZR (dl - d0)) - 1).
  split; [exact Hc|]. split; [exact Hc|].
  assert (Hp : 0 < Rpower (xl / x0) (365.25 / IZR (dl - d0))) by (unfold Rpower; apply exp_pos).
  split; [lra|]. split; [|split].
  - intros H. apply (ratio_ge_one xl x0 H0) in H.
    pose proof (Rpower_ge_one _ (365.25 / IZR (dl - d0)) H). lra.
  - intros H. apply (ratio_le_one xl x0 H0) in H.
    pose proof (Rpower_le_one (xl / x0) (365.25 / IZR (dl - d0))). lra.
  - intros H. rewrite H. replace (x0 / x0) with 1 by (field; lra).
    rewrite Rpower_one. lra.
Qed.

Lemma cagr_sign_and_floor_witness :
  ((365 <= fst (last [(365%Z, 150)] (0%Z, 100)) - 0)%Z /\ 0 < 100 /\
   0 < snd (last [(365%Z, 150)] (0%Z, 100))) /\
  exists c, SiteData.cagr (fin_series [(0%Z, 100); (365%Z, 150)]) = ret (Fin c) /\ 0 <= c.
Proof.
  assert (H1 : (365 <= fst (last [(365%Z, 150)] (0%Z, 100)) - 0)%Z) by (cbn; lia).
  assert (H2 : 0 < 100) by lra.
  assert (H3 : 0 < snd (last [(365%Z, 150)] (0%Z, 100))) by (cbn; lra).
  split; [split; [exact H1 | split; [exact H2 | exact H3]]|].
  destruct (cagr_sign_and_floor 0 100 [(365%Z, 150)] H1 H2 H3)
    as (c & Hc & _ & _ & Hs & _).
  exists c. split; [exact Hc|]. apply Hs. cbn. lra.
Defined.

(** ** Normalising an equity curve changes none of its metrics *)

Lemma scaled_pos x0 xs :
  0 < x0 -> Forall (fun p : Z * R => 0 < snd p) xs ->
  Forall (fun p : Z * R => 0 < snd p) (scaled x0 xs).
Proof.
  intros H0 H. induction H as [|[d x] xs Hx Hxs IH]; [constructor|].
  cbn [scaled map]. constructor; [|exact IH]. cbn [snd] in *.
  assert (0 < x / x0) by (apply Rdiv_lt_0_compat; assumption). lra.
Qed.

Lemma Rmax_scaled x0 a x :
  0 < x0 -> Rmax (a / x0 * 100) (x / x0 * 100) = Rmax a x / x0 * 100.
Proof.
  intros H0. assert (Hi : 0 < / x0) by (apply Rinv_0_lt_compat; exact H0).
  unfold Rmax. destruct (Rle_dec a x) as [H|H];
    destruct (Rle_dec (a / x0 * 100) (x / x0 * 100)) as [H'|H']; try reflexivity;
    unfold Rdiv in *; exfalso; nra.
Qed.

Lemma peaks_scaled x0 acc xs :
  0 < x0 ->
  peaks (option_map (fun a => a / x0 * 100) acc) (scaled x0 xs)
  = scaled x0 (peaks acc xs).
Proof.
  intros H0. revert acc; induction xs as [|[d x] xs IH]; intros acc; [reflexivity|].
  cbn [scaled map peaks]. fold (scaled x0 xs).
  destruct acc as [a|]; cbn [option_map].
  - rewrite Rmax_scaled by exact H0. f_equal. apply (IH (Some (Rmax a x))).
  - f_equal. apply (IH (Some x)).
Qed.

Lemma drawdowns_scaled x0 xs :
  0 < x0 -> Forall (fun p : Z * R => 0 < snd p) xs ->
  drawdowns (scaled x0 xs) = drawdowns xs.
Proof.
  intros H0 H. unfold drawdowns.
  change (peaks None (scaled x0 xs))
    with (peaks (option_map (fun a => a / x0 * 100) None) (scaled x0 xs)).
  rewrite peaks_scaled by exact H0.
  pose proof (peaks_pos None xs I H) as Hp. revert Hp.
  generalize (peaks None xs) as ps. clear H.
  induction xs as [|[d x] xs IH]; intros [|[e p] ps] Hp; try reflexivity.
  apply Forall_cons_iff in Hp. destruct Hp as [Hp Hps]. cbn [snd] in Hp.
  cbn [scaled map combine]. fold (scaled x0 xs) (scaled x0 ps).
  rewrite (IH ps Hps). f_equal. f_equal. field. split; lra.
Qed.

(** X4. The series normalised for the chart ([wf / wf.iloc[0] * 100]) of a
    series of strictly positive values starts at 100 and has the drawdowns,
    the maximum drawdown and the CAGR of the series itself. *)
Theorem norm_keeps_metrics (d0 : Z) (x0 : R) (t : list (Z * R)) :
  Forall (fun p : Z * R => 0 < snd p) ((d0, x0) :: t) ->
  exists n,
    SiteData.norm (fin_series ((d0, x0) :: t)) = ret n /\
    first_row n = ret (d0, Fin 100) /\
    SiteData.compute_drawdown n = SiteData.compute_drawdown (fin_series ((d0, x0) :: t)) /\
    SiteData.max_dd n = SiteData.max_dd (fin_series ((d0, x0) :: t)) /\
    SiteData.cagr n = SiteData.cagr (fin_series ((d0, x0) :: t)).
Proof.
  intros Hpos. set (xs := (d0, x0) :: t) in *.
  assert (H0 : 0 < x0) by (apply Forall_inv in Hpos; exact Hpos).
  exists (fin_series (scaled x0 xs)).
  split; [apply norm_fin_series; lra|].
  split.
  { unfold xs. cbn [scaled map fin_series first_row].
    replace (x0 / x0 * 100) with 100 by (field; lra). reflexivity. }
  assert (Hdd : SiteData.compute_drawdown (fin_series (scaled x0 xs))
                = SiteData.compute_drawdown (fin_series xs)).
  { rewrite !compute_drawdown_fin by auto using scaled_pos.
    rewrite drawdowns_scaled by assumption. reflexivity. }
  split; [exact Hdd|].
  split; [unfold SiteData.max_dd, SiteData.dd; rewrite Hdd; reflexivity|].
  rewrite !cagr_cases. unfold xs.
  change (scaled x0 ((d0, x0) :: t)) with ((d0, x0 / x0 * 100) :: scaled x0 t).
  change (fin_series ((d0, x0 / x0 * 100) :: scaled x0 t))
    with ((d0, Fin (x0 / x0 * 100)) :: fin_series (scaled x0 t)).
  change (fin_series ((d0, x0) :: t)) with ((d0, Fin x0) :: fin_series t).
  cbv beta iota zeta. rewrite !fin_series_last_row, scaled_last. cbn [fst snd].
  destruct (Z.eqb_spec (fst (last t (d0, x0))) d0) as [E|E]; [reflexivity|].
  rewrite !fdiv_Fin by (try lra; replace (x0 / x0 * 100) with 100 by (field; lra); lra).
  replace (snd (last t (d0, x0)) / x0 * 100 / (x0 / x0 * 100))
    with (snd (last t (d0, x0)) / x0) by (field; lra).
  reflexivity.
Qed.

Lemma norm_keeps_metrics_witness :
  Forall (fun p : Z * R => 0 < snd p) [(0%Z, 250); (1%Z, 300); (2%Z, 200)] /\
  exists n,
    SiteData.norm (fin_series [(0%Z, 250); (1%Z, 300); (2%Z, 200)]) = ret n /\
    SiteData.max_dd n = SiteData.max_dd (fin_series [(0%Z, 250); (1%Z, 300); (2%Z, 200)]).
Proof.
  assert (H : Forall (fun p : Z * R => 0 < snd p) [(0%Z, 250); (1%Z, 300); (2%Z, 200)])
    by (repeat constructor; simpl; lra).
  split; [exact H|].
  destruct (norm_keeps_metrics 0 250 [(1%Z, 300); (2%Z, 200)] H)
    as (n & Hn & _ & _ & Hs & _).
  exists n. split; [exact Hn | exact Hs].
Defined.

(** ** The weekly curve *)

Lemma resample_last_index key s :
  index (resample_last key s)
  = match s with
    | [] => []
    | (d0, _) :: t =>
        map (fun i => (key d0 + Z.of_nat i)%Z)
            (seq 0 (Z.to_nat (key (fst (last t (d0, NaN))) - key d0 + 1)))
    end.
Proof.
  unfold resample_last, index. destruct s as [|[d0 v0] t]; [reflexivity|].
  rewrite map_map. reflexivity.
Qed.

Lemma seq_offsets_sorted (k : Z) (a n : nat) :
  StronglySorted Z.lt (map (fun i => (k + Z.of_nat i)%Z) (seq a n)).
Proof.
  revert a; induction n as [|n IH]; intros a; [constructor|].
  cbn [seq map]. constructor; [apply IH|].
  apply Forall_forall. intros z Hz. apply in_map_iff in Hz.
  destruct Hz as (i & <- & Hi). apply in_seq in Hi. lia.
Qed.

Lemma StronglySorted_filter {A : Type} (R : A -> A -> Prop) (f : A -> bool) l :
  StronglySorted R l -> StronglySorted R (filter f l).
Proof.
  induction 1 as [|a l Hs IH Ha]; [constructor|].
  cbn [filter]. destruct (f a); [|exact IH].
  constructor; [exact IH|].
  apply Forall_forall. intros x Hx. apply filter_In in Hx.
  rewrite Forall_forall in Ha. apply Ha. tauto.
Qed.

Lemma StronglySorted_map_fst_filter (f : Z * fl -> bool) (s : Series) :
  StronglySorted Z.lt (index s) -> StronglySorted Z.lt (index (filter f s)).
Proof.
  unfold index. induction s as [|p s IH]; intros H; [constructor|].
  cbn [map] in H. apply StronglySorted_inv in H. destruct H as [Hs Hp].
  cbn [filter]. destruct (f p); [|apply IH; exact Hs].
  cbn [map]. constructor; [apply IH; exact Hs|].
  apply Forall_forall. intros z Hz. apply in_map_iff in Hz.
  destruct Hz as (q & <- & Hq). apply filter_In in Hq.
  rewrite Forall_forall in Hp. apply Hp. apply in_map. tauto.
Qed.

Lemma StronglySorted_map_mono (g : Z -> Z) l :
  (forall a b, (a < b)%Z -> (g a < g b)%Z) ->
  StronglySorted Z.lt l -> StronglySorted Z.lt (map g l).
Proof.
  intros Hg. induction 1 as [|a l Hs IH Ha]; [constructor|].
  cbn [map]. constructor; [exact IH|].
  apply Forall_forall. intros z Hz. apply in_map_iff in Hz.
  destruct Hz as (b & <- & Hb). rewrite Forall_forall in Ha. apply Hg, Ha, Hb.
Qed.

Lemma resample_last_sorted key s : StronglySorted Z.lt (index (resample_last key s)).
Proof.
  rewrite resample_last_index. destruct s as [|[d0 v0] t]; [constructor|].
  apply seq_offsets_sorted.
Qed.

Lemma round_not_nan a n : a <> NaN -> round a n <> NaN.
Proof. destruct a; intros H; [discriminate | discriminate | discriminate | contradiction]. Qed.

(** X5. The weekly curve of any series, as both scripts emit it, is a pair
    of parallel lists (as many dates as values); the dates are Sundays in
    strictly increasing order, so no week appears twice, and no value is
    NaN. *)
Theorem weekly_curve_well_formed (s : Series) :
  let '(dates, vals) := SiteData.curve (SiteData.weekly s) in
  length dates = length vals /\
  StronglySorted Z.lt dates /\
  Forall (fun d => (d mod 7 = 3)%Z) dates /\
  Forall (fun v => v <> NaN) vals /\
  Landing.curve (Landing.weekly s) = (dates, vals).
Proof.
  unfold SiteData.curve, SiteData.weekly.
  split; [unfold index, values; rewrite !length_map; reflexivity|].
  split.
  { apply StronglySorted_map_mono; [unfold week_label; intros; lia|].
    apply StronglySorted_map_fst_filter. apply resample_last_sorted. }
  split.
  { apply Forall_forall. intros d Hd. apply in_map_iff in Hd.
    destruct Hd as (w & <- & _). unfold week_label.
    rewrite Z.add_comm, Z.mul_comm, Z.mod_add by lia. reflexivity. }
  split; [|reflexivity].
  apply Forall_forall. intros v Hv. apply in_map_iff in Hv.
  destruct Hv as (a & <- & Ha). apply round_not_nan.
  unfold values in Ha. apply in_map_iff in Ha. destruct Ha as (p & <- & Hp).
  unfold dropna in Hp. apply filter_In in Hp. destruct Hp as [_ Hp].
  unfold notna in Hp. destruct (snd p); discriminate.
Qed.

(** ** The weekly points are the last observations of their weeks *)

(** The last element that satisfies [f]. *)
Lemma filter_last_split {A : Type} (f : A -> bool) (l : list A) (d : A) :
  filter f l <> [] ->
  exists l1 l2,
    l = l1 ++ last (filter f l) d :: l2 /\
    f (last (filter f l) d) = true /\
    forall y, In y l2 -> f y = false.
Proof.
  induction l as [|a l IH]; intros Hne; [contradiction Hne; reflexivity|].
  cbn [filter] in *. destruct (filter f l) as [|b fl'] eqn:E.
  - destruct (f a) eqn:Fa; [|contradiction Hne; reflexivity].
    exists [], l. cbn [last app]. split; [reflexivity|]. split; [exact Fa|].
    intros y Hy. destruct (f y) eqn:Fy; [|reflexivity].
    assert (Hin : In y (filter f l)) by (apply filter_In; tauto).
    rewrite E in Hin. contradiction.
  - destruct IH as (l1 & l2 & Hl & Hf & Hrest); [discriminate|].
    exists (a :: l1), l2.
    assert (Hlast : last (if f a then a :: b :: fl' else b :: fl') d = last (b :: fl') d).
    { destruct (f a); [|reflexivity]. reflexivity. }
    rewrite Hlast. split; [cbn [app]; f_equal; exact Hl|]. split; assumption.
Qed.

Lemma dropna_filter (f : Z * fl -> bool) (s : Series) :
  dropna (filter f s) = filter (fun p => f p && notna p) s.
Proof.
  unfold dropna. induction s as [|p s IH]; [reflexivity|].
  cbn [filter]. destruct (f p); cbn [filter andb]; rewrite IH; reflexivity.
Qed.

Lemma last_values (l : Series) (p : Z * fl) :
  l <> [] -> last (values l) NaN = snd (last l p).
Proof.
  intros Hne. destruct l as [|q l]; [contradiction Hne; reflexivity|].
  unfold values. cbn [map]. rewrite !last_cons.
  change (snd q) with ((fun r : Z * fl => snd r) q). rewrite last_map. reflexivity.
Qed.

(** A row of [resample_last]: a bin in range and the last valid value of
    that bin. *)
Lemma resample_last_In key s k v :
  In (k, v) (resample_last key s) ->
  v = last_valid (filter (in_bin key k) s).
Proof.
  unfold resample_last. destruct s as [|[d0 v0] t]; [intros []|].
  intros H. apply in_map_iff in H. destruct H as (i & Hi & _).
  inversion Hi; subst. reflexivity.
Qed.

Lemma last_valid_cases key k (s : Series) :
  (filter (fun p => in_bin key k p && notna p) s = [] /\
   last_valid (filter (in_bin key k) s) = NaN) \/
  (exists d v s1 s2,
     s = s1 ++ (d, v) :: s2 /\ key d = k /\ v <> NaN /\
     last_valid (filter (in_bin key k) s) = v /\
     forall p, In p s2 -> key (fst p) = k -> snd p = NaN).
Proof.
  unfold last_valid. rewrite dropna_filter.
  destruct (filter (fun p => in_bin key k p && notna p) s) as [|q l] eqn:E;
    [left; split; reflexivity|].
  right.
  destruct (filter_last_split (fun p => in_bin key k p && notna p) s (0%Z, NaN))
    as (s1 & s2 & Hs & Hf & Hrest); [rewrite E; discriminate|].
  rewrite E in Hs, Hf.
  destruct (last (q :: l) (0%Z, NaN)) as [d v] eqn:El.
  apply andb_true_iff in Hf. destruct Hf as [Hbin Hna].
  exists d, v, s1, s2. split; [exact Hs|].
  split; [unfold in_bin in Hbin; cbn [fst] in Hbin; apply Z.eqb_eq; exact Hbin|].
  split; [unfold notna in Hna; cbn [snd] in Hna; intros ->; discriminate|].
  split.
  - rewrite (last_values (q :: l) (0%Z, NaN)) by discriminate. rewrite El. reflexivity.
  - intros p Hp Hk. specialize (Hrest p Hp).
    apply andb_false_iff in Hrest. destruct Hrest as [Hb | Hn].
    + unfold in_bin in Hb. apply Z.eqb_neq in Hb. contradiction.
    + unfold notna in Hn. destruct (snd p); try discriminate. reflexivity.
Qed.

(** A point of the weekly series carries a value of the series. *)
Lemma weekly_In (s : Series) w v :
  In (w, v) (SiteData.weekly s) -> v <> NaN /\ exists d, In (d, v) s.
Proof.
  intros Hin. unfold SiteData.weekly, dropna in Hin.
  apply filter_In in Hin. destruct Hin as [Hin Hna].
  apply resample_last_In in Hin.
  destruct (last_valid_cases week_of w s)
    as [[_ Hn] | (d & v' & s1 & s2 & Hs & _ & Hv & Hl & _)].
  - rewrite Hn in Hin. subst v. discriminate Hna.
  - rewrite Hl in Hin. subst v'. split; [exact Hv|].
    exists d. rewrite Hs. apply in_or_app. right. left. reflexivity.
Qed.

(** X6. Every point of the weekly series is the last observation of its
    week that is not NaN: its value is the value of a row dated in the seven
    days that end on the point's Sunday, and every later row of that week
    is NaN.  Conversely, every week between the first and the last row's
    that holds a row with a value has a point. *)
Theorem weekly_points_are_last_observations (s : Series) :
  (forall w v, In (w, v) (SiteData.weekly s) ->
     exists d s1 s2,
       s = s1 ++ (d, v) :: s2 /\ v <> NaN /\
       (week_label w - 6 <= d <= week_label w)%Z /\
       forall p, In p s2 -> week_of (fst p) = w -> snd p = NaN) /\
  (forall d0 v0 t d v,
     s = (d0, v0) :: t -> In (d, v) s -> v <> NaN ->
     (week_of d0 <= week_of d <= week_of (fst (last t (d0, v0))))%Z ->
     exists v', In (week_of d, v') (SiteData.weekly s)).
Proof.
  split.
  - intros w v Hin. unfold SiteData.weekly, dropna in Hin.
    apply filter_In in Hin. destruct Hin as [Hin Hna].
    apply resample_last_In in Hin.
    destruct (last_valid_cases week_of w s) as [[_ Hn] | (d & v' & s1 & s2 & Hs & Hk & Hv & Hl & Hrest)].
    + rewrite Hn in Hin. subst v. discriminate Hna.
    + rewrite Hl in Hin. subst v'. exists d, s1, s2.
      split; [exact Hs|]. split; [exact Hv|]. split; [|exact Hrest].
      unfold week_label. subst w. unfold week_of.
      pose proof (Z.div_mod (d + 3) 7 ltac:(lia)) as Hdm.
      pose proof (Z.mod_pos_bound (d + 3) 7 ltac:(lia)) as Hb. lia.
  - intros d0 v0 t d v Hs Hin Hv Hrange.
    destruct (last_valid_cases week_of (week_of d) s)
      as [[He _] | (e & v' & s1 & s2 & _ & _ & Hv' & Hl & _)].
    + exfalso.
      assert (Hf : In (d, v) (filter (fun p => in_bin week_of (week_of d) p && notna p) s)).
      { apply filter_In. split; [exact Hin|].
        unfold in_bin, notna. cbn [fst snd]. rewrite Z.eqb_refl.
        destruct v; try reflexivity. contradiction Hv; reflexivity. }
      rewrite He in Hf. contradiction.
    + exists v'. unfold SiteData.weekly, dropna. apply filter_In. split.
      * subst s. unfold resample_last. apply in_map_iff.
        exists (Z.to_nat (week_of d - week_of d0)). split.
        -- rewrite Z2Nat.id by lia.
           replace (week_of d0 + (week_of d - week_of d0))%Z with (week_of d) by lia.
           f_equal. exact Hl.
        -- apply in_seq. 
           assert (Hlast : fst (last t (d0, NaN)) = fst (last t (d0, v0))).
           { clear. revert d0 v0. induction t as [|q t IH]; intros d0 v0; [reflexivity|].
             rewrite !last_cons. reflexivity. }
           rewrite Hlast. lia.
      * unfold notna. cbn [snd]. destruct v'; try reflexivity. contradiction Hv'; reflexivity.
Qed.

Lemma weekly_points_are_last_observations_witness :
  let s := [(days_from_civil 2024 1 1, Fin 100); (days_from_civil 2024 1 2, Fin 110)] in
  (s = (days_from_civil 2024 1 1, Fin 100) :: [(days_from_civil 2024 1 2, Fin 110)] /\
   In (days_from_civil 2024 1 2, Fin 110) s /\ Fin 110 <> NaN /\
   (week_of (days_from_civil 2024 1 1) <= week_of (days_from_civil 2024 1 2)
    <= week_of (fst (last [(days_from_civil 2024 1 2, Fin 110)]
                          (days_from_civil 2024 1 1, Fin 100))))%Z) /\
  exists v', In (week_of (days_from_civil 2024 1 2), v') (SiteData.weekly s).
Proof.
  intros s.
  assert (H1 : s = (days_from_civil 2024 1 1, Fin 100) :: [(days_from_civil 2024 1 2, Fin 110)])
    by reflexivity.
  assert (H2 : In (days_from_civil 2024 1 2, Fin 110) s) by (right; left; reflexivity).
  assert (H3 : Fin 110 <> NaN) by discriminate.
  assert (H4 : (week_of (days_from_civil 2024 1 1) <= week_of (days_from_civil 2024 1 2)
                <= week_of (fst (last [(days_from_civil 2024 1 2, Fin 110)]
                                      (days_from_civil 2024 1 1, Fin 100))))%Z)
    by (cbn [last fst]; split; apply week_of_mono; vm_compute; discriminate).
  split; [split; [exact H1 | split; [exact H2 | split; [exact H3 | exact H4]]]|].
  exact (proj2 (weekly_points_are_last_observations s) _ _ _ _ _ H1 H2 H3 H4).
Defined.

(** ** What the scripts do on every input table *)

Lemma nifty_cagr_cases (wf nifty : Series) :
  SiteData.nifty_cagr wf nifty =
  match wf with
  | [] => raise IndexError
  | p :: t =>
      match nifty with
      | [] => raise IndexError
      | q :: u =>
          if (fst (last t p) =? fst p)%Z then raise ZeroDivisionError
          else ret (fsub (fpow (fadd (Fin 1) (fsub (fdiv (snd (last u q)) (snd q)) (Fin 1)))
                               (1 / (IZR (fst (last t p) - fst p) / 365.25)))
                         (Fin 1))
      end
  end.
Proof.
  destruct wf as [|p t]; [reflexivity|]. destruct nifty as [|q u]; [reflexivity|].
  unfold SiteData.nifty_cagr, SiteData.years, SiteData.total_ret, SiteData.multiple.
  cbn [first_row last_row bind ret]. unfold py_div.
  destruct (Z.eqb_spec (fst (last t p)) (fst p)) as [E|E].
  - rewrite Reqb_true by (apply years_zero; exact E). reflexivity.
  - rewrite Reqb_false by (rewrite years_zero; exact E). reflexivity.
Qed.

(** X7. What the two scripts do on every table, once it is read (and the
    chart libraries are loaded, in the landing script).  Without a strategy
    value both raise IndexError; with the first and the last strategy date equal,
    both raise ZeroDivisionError; with no benchmark value in the strategy's
    period, both raise IndexError; otherwise [generate_landing] returns,
    and [generate] returns too unless the win rate is NaN, which makes it
    raise ValueError.  Nothing else is ever raised. *)
Theorem generate_outcomes (pad : bool) (curves : Curves) :
  match SiteData.wf curves with
  | [] =>
      SiteData.generate pad curves = raise IndexError /\
      Landing.generate_landing pad curves = raise IndexError
  | p :: t =>
      if (fst (last t p) =? fst p)%Z then
        SiteData.generate pad curves = raise ZeroDivisionError /\
        Landing.generate_landing pad curves = raise ZeroDivisionError
      else
        match dropna (loc_range (NIFTY_100pct curves) (fst p) (fst (last t p))) with
        | [] =>
            SiteData.generate pad curves = raise IndexError /\
            Landing.generate_landing pad curves = raise IndexError
        | q :: u =>
            (exists ld, Landing.generate_landing pad curves = ret ld) /\
            ((SiteData.win_rate pad (p :: t) (q :: u) = NaN /\
              SiteData.generate pad curves = raise ValueError) \/
             (SiteData.win_rate pad (p :: t) (q :: u) <> NaN /\
              exists sd, SiteData.generate pad curves = ret sd))
        end
  end.
Proof.
  unfold SiteData.generate, Landing.generate_landing.
  change Landing.wf with SiteData.wf. change Landing.nifty with SiteData.nifty.
  change Landing.years with SiteData.years. change Landing.cagr with SiteData.cagr.
  change Landing.multiple with SiteData.multiple.
  change Landing.nifty_cagr with SiteData.nifty_cagr.
  change Landing.norm with SiteData.norm.
  unfold SiteData.nifty.
  destruct (SiteData.wf curves) as [|p t]; [split; reflexivity|].
  cbn [first_row last_row bind ret].
  generalize (dropna (loc_range (NIFTY_100pct curves) (fst p) (fst (last t p)))).
  intros nifty.
  rewrite cagr_cases, nifty_cagr_cases. unfold SiteData.years.
  cbn [first_row last_row bind ret]. cbv zeta.
  destruct (Z.eqb_spec (fst (last t p)) (fst p)) as [E|E]; [split; reflexivity|].
  cbn [bind ret]. unfold SiteData.multiple at 1 3. cbn [first_row last_row bind ret].
  destruct nifty as [|q u]; [split; reflexivity|].
  cbn [bind ret]. unfold SiteData.norm. cbn [first_row bind ret].
  split; [eexists; reflexivity|].
  destruct (win_rate_cases pad (p :: t) (q :: u)) as [(k & Hk & Hint) | [Hnan Hint]];
    rewrite Hint; cbn [bind ret raise].
  - right. split; [rewrite Hk; discriminate|].
    unfold SiteData.nifty_multiple. cbn [first_row last_row bind ret].
    eexists; reflexivity.
  - left. split; [exact Hnan | reflexivity].
Qed.

(** ** Ranges of the reported numbers *)

Lemma rint_floor_or_next x : rint x = Int_part x \/ rint x = (Int_part x + 1)%Z /\ IZR (Int_part x) + 1 / 2 <= x.
Proof.
  unfold rint. destruct (Rlt_dec (x - IZR (Int_part x)) (1 / 2)) as [H|H].
  - rewrite (Rltb_true _ _ H). left; reflexivity.
  - rewrite (Rltb_false _ _ H).
    destruct (Rltb (1 / 2) (x - IZR (Int_part x))); [right; split; [reflexivity | lra]|].
    destruct (Z.even (Int_part x)); [left; reflexivity | right; split; [reflexivity | lra]].
Qed.

Lemma rint_between (a b : Z) x : IZR a <= x <= IZR b -> (a <= rint x <= b)%Z.
Proof.
  intros [Ha Hb]. destruct (Int_part_bounds x) as [Hf Hf'].
  assert (Haf : (a <= Int_part x)%Z).
  { apply Z.lt_succ_r. apply lt_IZR. rewrite succ_IZR. lra. }
  assert (Hfb : (Int_part x <= b)%Z) by (apply le_IZR; lra).
  destruct (rint_floor_or_next x) as [-> | [-> Hh]]; [lia|].
  split; [lia|].
  assert (Hlt : (Int_part x < b)%Z) by (apply lt_IZR; lra). lia.
Qed.

(** Rounding keeps a value between two bounds that have at most [n]
    decimals. *)
Lemma round_between (a b : Z) x n :
  IZR a / 10 ^ n <= x <= IZR b / 10 ^ n ->
  exists r, round (Fin x) n = Fin r /\ IZR a / 10 ^ n <= r <= IZR b / 10 ^ n.
Proof.
  intros [Ha Hb].
  assert (Hp : 0 < 10 ^ n) by (apply pow_lt; lra).
  assert (Hi : 0 < / 10 ^ n) by (apply Rinv_0_lt_compat; exact Hp).
  assert (Hx : IZR a <= x * 10 ^ n <= IZR b).
  { split.
    - apply (Rmult_le_compat_r (10 ^ n)) in Ha; [|lra].
      unfold Rdiv in Ha. rewrite Rmult_assoc, Rinv_l, Rmult_1_r in Ha by lra. exact Ha.
    - apply (Rmult_le_compat_r (10 ^ n)) in Hb; [|lra].
      unfold Rdiv in Hb. rewrite Rmult_assoc, Rinv_l, Rmult_1_r in Hb by lra. exact Hb. }
  apply rint_between in Hx. destruct Hx as [H1 H2].
  apply IZR_le in H1, H2.
  eexists. split; [reflexivity|]. unfold Rdiv. split; apply Rmult_le_compat_r; lra.
Qed.

Lemma filter_length_le_INR {A : Type} (f : A -> bool) (l : list A) :
  INR (length (filter f l)) <= INR (length l).
Proof. apply le_INR. apply filter_length_le. Qed.

(** The steps of a run of [generate] that returns. *)
Lemma generate_inv pad curves sd :
  SiteData.generate pad curves = ret sd ->
  exists nifty k,
    SiteData.nifty curves = ret nifty /\
    py_int (SiteData.win_rate pad (SiteData.wf curves) nifty) = ret k /\
    SiteData.hero_win_rate (SiteData.hero sd) = k /\
    SiteData.hero_max_dd (SiteData.hero sd)
    = round (fmul (SiteData.max_dd (SiteData.wf curves)) (Fin 100)) 1 /\
    SiteData.drawdown sd
    = (map week_label (index (SiteData.weekly (SiteData.dd (SiteData.wf curves)))),
       map (fun v => round (fmul v (Fin 100)) 1)
           (values (SiteData.weekly (SiteData.dd (SiteData.wf curves))))).
Proof.
  unfold SiteData.generate. intros H.
  destruct (SiteData.nifty curves) as [e|nifty]; [discriminate H|]. cbn [bind] in H.
  destruct (SiteData.years (SiteData.wf curves)) as [e|y]; [discriminate H|]. cbn [bind] in H.
  destruct (SiteData.cagr (SiteData.wf curves)) as [e|c]; [discriminate H|]. cbn [bind] in H.
  destruct (SiteData.multiple (SiteData.wf curves)) as [e|m]; [discriminate H|].
  cbn [bind] in H.
  destruct (SiteData.nifty_cagr (SiteData.wf curves) nifty) as [e|nc]; [discriminate H|].
  cbn [bind] in H.
  destruct (py_int (SiteData.win_rate pad (SiteData.wf curves) nifty)) as [e|k] eqn:Hk;
    [discriminate H|]. cbn [bind] in H.
  destruct (SiteData.norm (SiteData.wf curves)) as [e|nw]; [discriminate H|]. cbn [bind] in H.
  destruct (SiteData.norm nifty) as [e|nn]; [discriminate H|]. cbn [bind] in H.
  destruct (SiteData.nifty_multiple nifty) as [e|nm]; [discriminate H|]. cbn [bind] in H.
  inversion H; subst sd; clear H. cbn.
  exists nifty, k. repeat split; first [reflexivity | exact Hk].
Qed.

(** X8. The win rate is NaN when the strategy and the benchmark have no
    month in common, which [int] rejects with ValueError; otherwise it is a
    whole number from 0 to 100, which [int] returns as it is.  So the win
    rate in the output of [generate] is always an integer percentage. *)
Theorem win_rate_is_a_percentage (pad : bool) :
  (forall wf nifty : Series,
     (SiteData.win_rate pad wf nifty = NaN /\
      loc (SiteData.monthly pad wf) (SiteData.common_m pad wf nifty) = [] /\
      py_int (SiteData.win_rate pad wf nifty) = raise ValueError) \/
     (exists k : Z,
        (0 <= k <= 100)%Z /\
        SiteData.win_rate pad wf nifty = Fin (IZR k) /\
        py_int (SiteData.win_rate pad wf nifty) = ret k)) /\
  (forall curves sd,
     SiteData.generate pad curves = ret sd ->
     (0 <= SiteData.hero_win_rate (SiteData.hero sd) <= 100)%Z).
Proof.
  assert (Hcases : forall wf nifty : Series,
     (SiteData.win_rate pad wf nifty = NaN /\
      loc (SiteData.monthly pad wf) (SiteData.common_m pad wf nifty) = [] /\
      py_int (SiteData.win_rate pad wf nifty) = raise ValueError) \/
     (exists k : Z,
        (0 <= k <= 100)%Z /\
        SiteData.win_rate pad wf nifty = Fin (IZR k) /\
        py_int (SiteData.win_rate pad wf nifty) = ret k)); [intros wf nifty|].
  unfold SiteData.win_rate.
  set (rows := loc (SiteData.monthly pad wf) (SiteData.common_m pad wf nifty)).
  unfold share_positive, count.
  destruct (values rows) as [|v vs] eqn:E.
  - left. cbn [filter length INR fdiv]. rewrite !Reqb_true by reflexivity.
    split; [reflexivity|]. split; [|reflexivity].
    unfold values in E. destruct rows; [reflexivity | discriminate E].
  - right.
    set (c := INR (length (filter (fun a => fgt a (Fin 0)) (v :: vs)))).
    set (n := INR (length (v :: vs))).
    assert (Hn : 0 < n) by (unfold n; apply lt_0_INR; cbn; lia).
    assert (Hc : 0 <= c <= n).
    { unfold c, n. split; [apply pos_INR | apply filter_length_le_INR]. }
    rewrite fdiv_Fin by lra. cbn [fmul].
    assert (Hx : IZR 0 / 10 ^ 0 <= c / n * 100 <= IZR 100 / 10 ^ 0).
    { assert (Hi : 0 < / n) by (apply Rinv_0_lt_compat; exact Hn).
      assert (Hq : 0 <= c / n <= 1).
      { unfold Rdiv. split; [nra|].
        apply (Rmult_le_reg_r n); [exact Hn|]. rewrite Rmult_assoc, Rinv_l by lra. lra. }
      simpl. lra. }
    assert (Hr : (0 <= rint (c / n * 100 * 10 ^ 0) <= 100)%Z).
    { apply rint_between. simpl in *. lra. }
    exists (rint (c / n * 100 * 10 ^ 0)). split; [exact Hr|].
    unfold round, py_int.
    replace (IZR (rint (c / n * 100 * 10 ^ 0)) / 10 ^ 0)
      with (IZR (rint (c / n * 100 * 10 ^ 0))) by (simpl; field).
    rewrite trunc_IZR. split; reflexivity.
  - split; [exact Hcases|].
    intros curves sd Hgen.
    destruct (generate_inv pad curves sd Hgen) as (nifty & k & _ & Hk & Hwin & _).
    rewrite Hwin.
    destruct (Hcases (SiteData.wf curves) nifty)
      as [(_ & _ & He) | (k' & Hr & _ & Hi)]; rewrite Hk in *; [discriminate He|].
    inversion Hi. lia.
Qed.

Lemma win_rate_is_a_percentage_witness :
  exists sd,
    SiteData.generate true three_months_table = ret sd /\
    (0 <= SiteData.hero_win_rate (SiteData.hero sd) <= 100)%Z.
Proof.
  destruct (generate_returns true three_months_table
              (days_from_civil 2024 1 31, Fin 100)
              [(days_from_civil 2024 2 29, Fin 110); (days_from_civil 2024 3 31, Fin 99)]
              (days_from_civil 2024 1 31, Fin 50)
              [(days_from_civil 2024 2 29, Fin 40); (days_from_civil 2024 3 31, Fin 30)])
    as [sd Hsd].
  - reflexivity.
  - cbn [last fst]. discriminate.
  - reflexivity.
  - change (SiteData.win_rate true (fin_series (three_month_ends 100 110 99))
                                   (fin_series (three_month_ends 50 40 30)) <> NaN).
    rewrite win_rate_three_months. discriminate.
  - exists sd. split; [exact Hsd|].
    exact (proj2 (win_rate_is_a_percentage true) three_months_table sd Hsd).
Defined.


Lemma max_dd_fin xs :
  xs <> [] -> Forall (fun q : Z * R => 0 < snd q) xs ->
  exists m, SiteData.max_dd (fin_series xs) = Fin m /\ -1 < m <= 0.
Proof.
  intros Hne Hpos.
  pose proof (drawdowns_bounds_from None xs I Hpos) as Hb. fold (drawdowns xs) in Hb.
  unfold SiteData.max_dd, SiteData.dd. rewrite (compute_drawdown_fin xs Hpos).
  destruct (drawdowns xs) as [|[d0 v0] ds] eqn:E.
  { destruct xs as [|[d x] xs]; [contradiction | discriminate E]. }
  rewrite smin_fin_series.
  destruct (fold_Rmin_least (map snd ds) v0) as [Hin _].
  eexists. split; [reflexivity|].
  rewrite Forall_forall in Hb.
  change (v0 :: map snd ds) with (map snd ((d0, v0) :: ds)) in Hin.
  apply in_map_iff in Hin. destruct Hin as (q & Hq & Hin).
  rewrite <- Hq. apply (Hb q Hin).
Qed.

Lemma percent_between v :
  -1 < v <= 0 ->
  exists r, round (fmul (Fin v) (Fin 100)) 1 = Fin r /\ -100 <= r <= 0.
Proof.
  intros Hv. cbn [fmul].
  destruct (round_between (-1000) 0 (v * 100) 1) as (r & Hr & Hb); [simpl; lra|].
  exists r. split; [exact Hr|]. simpl in Hb. lra.
Qed.

(** X9. When [generate] returns on a strategy of strictly positive
    values, the maximum drawdown it reports is a percentage from -100 to 0,
    and the weekly drawdown series it emits is a pair of parallel lists
    whose values all lie from -100 to 0. *)
Theorem site_data_ranges (pad : bool) (curves : Curves) (sd : SiteData.SiteData)
        (xs : list (Z * R)) :
  SiteData.generate pad curves = ret sd ->
  SiteData.wf curves = fin_series xs ->
  Forall (fun q : Z * R => 0 < snd q) xs ->
  (exists m, SiteData.hero_max_dd (SiteData.hero sd) = Fin m /\ -100 <= m <= 0) /\
  length (fst (SiteData.drawdown sd)) = length (snd (SiteData.drawdown sd)) /\
  Forall (fun v => exists r, v = Fin r /\ -100 <= r <= 0) (snd (SiteData.drawdown sd)).
Proof.
  intros Hgen Hwf Hpos.
  destruct (generate_inv pad curves sd Hgen) as (nifty & k & Hn & Hk & Hwin & Hmax & Hdd).
  assert (Hne : xs <> []).
  { intros ->. unfold SiteData.nifty in Hn. rewrite Hwf in Hn. discriminate Hn. }
  split.
  { rewrite Hmax, Hwf. destruct (max_dd_fin xs Hne Hpos) as (m & -> & Hm).
    apply percent_between. exact Hm. }
  rewrite Hdd. cbn [fst snd]. split.
  { unfold index, values. rewrite !length_map. reflexivity. }
  apply Forall_forall. intros v Hv. apply in_map_iff in Hv.
  destruct Hv as (a & <- & Ha). unfold values in Ha. apply in_map_iff in Ha.
  destruct Ha as ([w a'] & <- & Hin). cbn [snd].
  apply weekly_In in Hin. destruct Hin as [_ (d & Hd)].
  unfold SiteData.dd in Hd. rewrite Hwf, (compute_drawdown_fin xs Hpos) in Hd.
  unfold fin_series in Hd. apply in_map_iff in Hd. destruct Hd as ([e x] & He & Hx).
  inversion He; subst.
  pose proof (drawdowns_bounds_from None xs I Hpos) as Hb. fold (drawdowns xs) in Hb.
  rewrite Forall_forall in Hb. apply (percent_between x). apply (Hb (d, x) Hx).
Qed.

Lemma site_data_ranges_witness :
  exists sd,
    (SiteData.generate true three_months_table = ret sd /\
     SiteData.wf three_months_table = fin_series (three_month_ends 100 110 99) /\
     Forall (fun q : Z * R => 0 < snd q) (three_month_ends 100 110 99)) /\
    Forall (fun v => exists r, v = Fin r /\ -100 <= r <= 0) (snd (SiteData.drawdown sd)).
Proof.
  destruct (generate_returns true three_months_table
              (days_from_civil 2024 1 31, Fin 100)
              [(days_from_civil 2024 2 29, Fin 110); (days_from_civil 2024 3 31, Fin 99)]
              (days_from_civil 2024 1 31, Fin 50)
              [(days_from_civil 2024 2 29, Fin 40); (days_from_civil 2024 3 31, Fin 30)])
    as [sd Hsd].
  - reflexivity.
  - cbn [last fst]. discriminate.
  - reflexivity.
  - change (SiteData.win_rate true (fin_series (three_month_ends 100 110 99))
                                   (fin_series (three_month_ends 50 40 30)) <> NaN).
    rewrite win_rate_three_months. discriminate.
  - assert (Hwf : SiteData.wf three_months_table = fin_series (three_month_ends 100 110 99))
      by reflexivity.
    assert (Hpos : Forall (fun q : Z * R => 0 < snd q) (three_month_ends 100 110 99))
      by (repeat constructor; simpl; lra).
    exists sd. split; [split; [exact Hsd | split; [exact Hwf | exact Hpos]]|].
    exact (proj2 (proj2 (site_data_ranges true three_months_table sd _ Hsd Hwf Hpos))).
Defined.

(** ** beta of a strategy that follows the benchmark *)








(** ** The years of the annual chart *)

Lemma insert_sorted_In k l y : In y (insert_sorted k l) <-> y = k \/ In y l.
Proof.
  induction l as [|h t IH]; cbn [insert_sorted].
  - cbn. intuition.
  - destruct (Z.ltb_spec k h); [cbn; intuition|].
    destruct (Z.eqb_spec k h) as [->|Hne]; [cbn; intuition|].
    cbn [In]. rewrite IH. intuition.
Qed.

Lemma insert_sorted_sorted k l :
  StronglySorted Z.lt l -> StronglySorted Z.lt (insert_sorted k l).
Proof.
  induction 1 as [|h t Hs IH Hh]; cbn [insert_sorted].
  - repeat constructor.
  - rewrite Forall_forall in Hh.
    destruct (Z.ltb_spec k h) as [Hlt|Hge].
    + constructor; [constructor; [exact Hs | apply Forall_forall; exact Hh]|].
      constructor; [exact Hlt|]. apply Forall_forall. intros y Hy. specialize (Hh y Hy). lia.
    + destruct (Z.eqb_spec k h) as [->|Hne].
      * constructor; [exact Hs | apply Forall_forall; exact Hh].
      * constructor; [exact IH|]. apply Forall_forall. intros y Hy.
        apply insert_sorted_In in Hy. destruct Hy as [-> | Hy]; [lia | apply Hh; exact Hy].
Qed.

Lemma sorted_set_In l y : In y (sorted_set l) <-> In y l.
Proof.
  induction l as [|k l IH]; [reflexivity|].
  cbn [sorted_set fold_right]. fold (sorted_set l).
  rewrite insert_sorted_In, IH. cbn. intuition.
Qed.

Lemma sorted_set_sorted l : StronglySorted Z.lt (sorted_set l).
Proof.
  induction l as [|k l IH]; [constructor|].
  cbn [sorted_set fold_right]. apply insert_sorted_sorted. exact IH.
Qed.

Lemma insert_sorted_head k l :
  Forall (Z.lt k) l -> insert_sorted k l = k :: l.
Proof.
  intros H. destruct l as [|h t]; [reflexivity|].
  apply Forall_inv in H. cbn [insert_sorted].
  destruct (Z.ltb_spec k h); [reflexivity | lia].
Qed.

Lemma insert_sorted_present k l :
  StronglySorted Z.lt l -> In k l -> insert_sorted k l = l.
Proof.
  induction 1 as [|h t Hs IH Hh]; intros Hin; [contradiction|].
  rewrite Forall_forall in Hh. cbn [insert_sorted].
  destruct Hin as [-> | Hin].
  - rewrite Z.ltb_irrefl, Z.eqb_refl. reflexivity.
  - specialize (Hh k Hin).
    destruct (Z.ltb_spec k h); [lia|].
    destruct (Z.eqb_spec k h); [lia|]. f_equal. apply IH. exact Hin.
Qed.

Lemma sorted_set_id l : StronglySorted Z.lt l -> sorted_set l = l.
Proof.
  induction 1 as [|h t Hs IH Hh]; [reflexivity|].
  cbn [sorted_set fold_right]. fold (sorted_set t). rewrite IH.
  apply insert_sorted_head. exact Hh.
Qed.

Lemma sorted_set_app_absorb l1 l2 :
  StronglySorted Z.lt l2 -> (forall y, In y l1 -> In y l2) ->
  sorted_set (l1 ++ l2) = l2.
Proof.
  intros Hs. induction l1 as [|k l1 IH]; intros Hin.
  - apply sorted_set_id. exact Hs.
  - cbn [app sorted_set fold_right]. fold (sorted_set (l1 ++ l2)).
    rewrite IH by (intros y Hy; apply Hin; right; exact Hy).
    apply insert_sorted_present; [exact Hs | apply Hin; left; reflexivity].
Qed.

Lemma StronglySorted_tl (l : list Z) : StronglySorted Z.lt l -> StronglySorted Z.lt (tl l).
Proof. intros H. destruct l; [constructor|]. apply StronglySorted_inv in H. apply H. Qed.


(** ** Period returns: the index of [pct_change] and of its valid rows *)

Lemma shift_from_index prev s : index (shift_from prev s) = index s.
Proof.
  revert prev; induction s as [|[d v] t IH]; intros prev; [reflexivity|].
  cbn [shift_from index map fst]. f_equal. apply IH.
Qed.

Lemma ffill_from_index prev s : index (ffill_from prev s) = index s.
Proof.
  revert prev; induction s as [|[d v] t IH]; intros prev; [reflexivity|].
  cbn [ffill_from index map fst]. f_equal. apply IH.
Qed.

Lemma zip_with_index f (s t : Series) :
  index s = index t -> index (zip_with f s t) = index s.
Proof.
  unfold zip_with, index. revert t.
  induction s as [|[d a] s IH]; intros t H; destruct t as [|[e b] t]; try discriminate; [reflexivity|].
  cbn [map fst] in H. injection H as _ H.
  cbn [combine map fst]. f_equal. apply IH. exact H.
Qed.

Lemma map_values_index f s : index (map_values f s) = index s.
Proof.
  unfold map_values, index. rewrite map_map. apply map_ext. intros [d a]; reflexivity.
Qed.

Lemma pct_change_index pad s : index (pct_change pad s) = index s.
Proof.
  unfold pct_change. rewrite map_values_index.
  rewrite zip_with_index by (unfold shift; rewrite shift_from_index; reflexivity).
  destruct pad; [apply ffill_from_index | reflexivity].
Qed.

Lemma pct_change_head pad d v t :
  exists r, pct_change pad ((d, v) :: t) = (d, NaN) :: r.
Proof.
  unfold pct_change, shift, ffill.
  destruct pad; cbn [ffill_from shift_from zip_with combine map map_values];
    eexists; f_equal; f_equal;
    match goal with |- context [fdiv ?a NaN] => destruct a end; reflexivity.
Qed.

Lemma dropna_pct_change_index pad s k :
  In k (index (dropna (pct_change pad s))) -> In k (tl (index s)).
Proof.
  destruct s as [|[d v] t]; [destruct pad; intros H; exact H|].
  rewrite <- (pct_change_index pad ((d, v) :: t)).
  destruct (pct_change_head pad d v t) as [r ->].
  unfold dropna, index. cbn [filter notna snd isnan negb map tl].
  rewrite in_map_iff. intros [p [<- Hp]]. apply filter_In in Hp.
  apply in_map. apply Hp.
Qed.

Lemma fmul_100_not_nan v : v <> NaN -> fmul v (Fin 100) <> NaN.
Proof.
  destruct v; intros H; cbn [fmul]; try discriminate; try congruence;
    unfold Reqb; destruct (Req_dec_T 100 0); try lra; unfold inf_of_sign;
    match goal with |- context [Rltb ?a ?b] => destruct (Rltb a b) end; discriminate.
Qed.

Lemma resample_last_tl_range key d0 v0 t k :
  In k (tl (index (resample_last key ((d0, v0) :: t)))) ->
  (key d0 < k <= key (fst (last t (d0, NaN))))%Z.
Proof.
  rewrite resample_last_index.
  remember (Z.to_nat (key (fst (last t (d0, NaN))) - key d0 + 1)) as n eqn:En.
  destruct n as [|n']; [intros []|].
  cbn [seq map tl]. rewrite in_map_iff. intros [i [<- Hi]].
  apply in_seq in Hi. lia.
Qed.

(** What the two dictionaries of period returns have in common. *)
Lemma period_returns_well_formed key n pad equity :
  let r := map (fun '(k, v) => (k, round (fmul v (Fin 100)) n))
               (dropna (pct_change pad (resample_last key equity))) in
  StronglySorted Z.lt (map fst r) /\
  Forall (fun p : Z * fl => snd p <> NaN) r /\
  (forall k, In k (map fst r) ->
     match equity with
     | [] => False
     | (d0, _) :: t => (key d0 < k <= key (fst (last t (d0, NaN))))%Z
     end).
Proof.
  intros r.
  assert (Hidx : map fst r = index (dropna (pct_change pad (resample_last key equity)))).
  { unfold r, index. rewrite map_map. apply map_ext. intros [k v]; reflexivity. }
  repeat split.
  - rewrite Hidx. apply StronglySorted_map_fst_filter.
    rewrite pct_change_index. apply resample_last_sorted.
  - unfold r. apply Forall_forall. intros p Hp. apply in_map_iff in Hp.
    destruct Hp as [[k v] [<- Hq]]. apply filter_In in Hq. destruct Hq as [_ Hv].
    cbn [snd]. apply round_not_nan. apply fmul_100_not_nan.
    unfold notna in Hv. cbn [snd] in Hv. destruct v; try discriminate; discriminate.
  - intros k Hk. rewrite Hidx in Hk. apply dropna_pct_change_index in Hk.
    destruct equity as [|[d0 v0] t]; [exact Hk|].
    apply (resample_last_tl_range key d0 v0 t k Hk).
Qed.

(** X11. The dictionaries of [compute_annual_returns] and
    [compute_monthly_returns] have their keys in strictly increasing order
    (so no entry of the dict comprehension overwrites another), hold no NaN,
    and every key lies after the period of the first row and not after the
    period of the last row: the first year, or month, is never reported.  The
    landing script's [compute_annual_returns] is the same function. *)
Theorem period_returns_keys_and_values (pad : bool) (equity : Series) :
  let annual := SiteData.compute_annual_returns pad equity in
  let monthly := SiteData.compute_monthly_returns pad equity in
  (StronglySorted Z.lt (map fst annual) /\
   Forall (fun p : Z * fl => snd p <> NaN) annual /\
   (forall y, In y (map fst annual) ->
      match equity with
      | [] => False
      | (d0, _) :: t => (year_of d0 < y <= year_of (fst (last t (d0, NaN))))%Z
      end)) /\
  (StronglySorted Z.lt (map fst monthly) /\
   Forall (fun p : Z * fl => snd p <> NaN) monthly /\
   (forall m, In m (map fst monthly) ->
      match equity with
      | [] => False
      | (d0, _) :: t => (month_of d0 < m <= month_of (fst (last t (d0, NaN))))%Z
      end)) /\
  Landing.compute_annual_returns pad equity = annual.
Proof.
  cbv zeta. split; [|split].
  - apply (period_returns_well_formed year_of 1 pad equity).
  - apply (period_returns_well_formed month_of 2 pad equity).
  - reflexivity.
Qed.

(** X12. The list [all_years] of the annual chart is in strictly increasing
    order, so without repetition, and holds exactly the years that have a
    return of the strategy or of the benchmark.  When the two Series give
    returns for the same years, it is the list of these years as they stand
    in either dictionary. *)
Theorem all_years_sorted_union (wf_annual nifty_annual : list (Z * fl)) :
  StronglySorted Z.lt (all_years wf_annual nifty_annual) /\
  (forall y, In y (all_years wf_annual nifty_annual)
             <-> In y (map fst wf_annual) \/ In y (map fst nifty_annual)) /\
  (forall pad wf nifty,
     wf_annual = SiteData.compute_annual_returns pad wf ->
     nifty_annual = SiteData.compute_annual_returns pad nifty ->
     map fst wf_annual = map fst nifty_annual ->
     all_years wf_annual nifty_annual = map fst wf_annual).
Proof.
  unfold all_years. split; [apply sorted_set_sorted|]. split.
  - intros y. rewrite sorted_set_In, in_app_iff. reflexivity.
  - intros pad wf nifty Hw Hn Hkeys. rewrite Hkeys.
    apply sorted_set_app_absorb; [|auto].
    rewrite Hn. apply (period_returns_well_formed year_of 1 pad nifty).
Qed.

Lemma annual_returns_keys pad equity ys :
  resample_last year_of equity = fin_series ys ->
  Forall (fun p : Z * R => snd p <> 0) ys ->
  map fst (SiteData.compute_annual_returns pad equity) = tl (map fst ys).
Proof.
  intros Hr Hys. rewrite (annual_returns_fin pad equity ys Hr Hys).
  rewrite map_map, <- pct_index. apply map_ext. intros [y r]; reflexivity.
Qed.

Lemma all_years_sorted_union_witness :
  let wf := fin_series [(days_from_civil 2020 12 31, 100);
                        (days_from_civil 2021 12 31, 120);
                        (days_from_civil 2022 12 30, 90)] in
  let nifty := fin_series [(days_from_civil 2020 12 31, 50);
                           (days_from_civil 2021 12 31, 55);
                           (days_from_civil 2022 12 30, 60)] in
  all_years (SiteData.compute_annual_returns true wf)
            (SiteData.compute_annual_returns true nifty) = [2021%Z; 2022%Z].
Proof.
  intros wf nifty.
  assert (H : forall a b c : R,
             resample_last year_of
               (fin_series [(days_from_civil 2020 12 31, a); (days_from_civil 2021 12 31, b);
                            (days_from_civil 2022 12 30, c)])
             = fin_series [(2020%Z, a); (2021%Z, b); (2022%Z, c)])
    by (intros; vm_compute; reflexivity).
  assert (Hw : map fst (SiteData.compute_annual_returns true wf) = [2021%Z; 2022%Z]).
  { apply (annual_returns_keys true wf [(2020%Z, 100); (2021%Z, 120); (2022%Z, 90)]);
      [apply H | repeat constructor; simpl; lra]. }
  assert (Hn : map fst (SiteData.compute_annual_returns true nifty) = [2021%Z; 2022%Z]).
  { apply (annual_returns_keys true nifty [(2020%Z, 50); (2021%Z, 55); (2022%Z, 60)]);
      [apply H | repeat constructor; simpl; lra]. }
  rewrite <- Hw at 1.
  apply (proj2 (proj2 (all_years_sorted_union _ _)) true wf nifty eq_refl eq_refl).
  rewrite Hw, Hn. reflexivity.
Defined.

(** ** The cache of the chart library *)

Lemma write_file_same dir f text : write_file dir f text f = Some text.
Proof. unfold write_file. rewrite String.eqb_refl. reflexivity. Qed.

Lemma write_file_other dir f text g : g <> f -> write_file dir f text g = dir g.
Proof.
  intros H. unfold write_file. destruct (String.eqb_spec g f); [contradiction | reflexivity].
Qed.

Lemma write_file_keeps dir f text g t :
  dir f = None -> dir g = Some t -> write_file dir f text g = Some t.
Proof.
  intros Hf Hg. rewrite write_file_other; [exact Hg|]. intros ->. congruence.
Qed.

(** One run of the loop: cached files stay as they are, other files are
    not touched, and a request is made only for a missing file. *)
Lemma load_sources_frame web urls : forall dir sources dir' requests,
  load_sources web urls dir = (sources, dir', requests) ->
  (forall f t, dir f = Some t -> dir' f = Some t) /\
  (forall f, ~ In f (map fst urls) -> dir' f = dir f) /\
  (forall u, In u requests -> exists f, In (f, u) urls /\ dir f = None).
Proof.
  induction urls as [|[fname url] rest IH]; intros dir sources dir' requests H.
  - cbn in H. injection H as _ <- <-. repeat split; auto. intros u [].
  - cbn [load_sources] in H. destruct (dir fname) as [text|] eqn:Hc.
    + destruct (load_sources web rest dir) as [[s1 d1] r1] eqn:E.
      injection H as _ <- <-. destruct (IH _ _ _ _ E) as (K1 & K2 & K3).
      repeat split.
      * exact K1.
      * intros f Hf. apply K2. intros Hin. apply Hf. right. exact Hin.
      * intros u Hu. destruct (K3 u Hu) as (f & Hin & Hn).
        exists f. split; [right; exact Hin | exact Hn].
    + destruct (web url) as [text|] eqn:Hw.
      * destruct (load_sources web rest (write_file dir fname text)) as [[s1 d1] r1] eqn:E.
        injection H as _ <- <-. destruct (IH _ _ _ _ E) as (K1 & K2 & K3).
        repeat split.
        -- intros f t Hf. apply K1. apply write_file_keeps; assumption.
        -- intros f Hf. rewrite K2 by (intros Hin; apply Hf; right; exact Hin).
           apply write_file_other. intros ->. apply Hf. left. reflexivity.
        -- intros u [<- | Hu].
           ++ exists fname. split; [left; reflexivity | exact Hc].
           ++ destruct (K3 u Hu) as (f & Hin & Hn). exists f. split; [right; exact Hin|].
              unfold write_file in Hn. destruct (String.eqb f fname); [discriminate | exact Hn].
      * injection H as _ <- <-. repeat split; auto.
        -- intros u [<- | []]. exists fname. split; [left; reflexivity | exact Hc].
Qed.

(** A run that succeeds leaves every file of the list in the directory,
    with the text it returned. *)
Lemma load_sources_cached web urls : forall dir l dir' requests,
  load_sources web urls dir = (Some l, dir', requests) ->
  map dir' (map fst urls) = map Some l.
Proof.
  induction urls as [|[fname url] rest IH]; intros dir l dir' requests H.
  - cbn in H. injection H as <- _ _. reflexivity.
  - cbn [load_sources] in H. destruct (dir fname) as [text|] eqn:Hc.
    + destruct (load_sources web rest dir) as [[s1 d1] r1] eqn:E.
      destruct s1 as [l1|]; [|discriminate]. injection H as <- <- <-.
      cbn [map fst]. f_equal; [|apply (IH _ _ _ _ E)].
      apply (proj1 (load_sources_frame _ _ _ _ _ _ E)). exact Hc.
    + destruct (web url) as [text|] eqn:Hw; [|discriminate].
      destruct (load_sources web rest (write_file dir fname text)) as [[s1 d1] r1] eqn:E.
      destruct s1 as [l1|]; [|discriminate]. injection H as <- <- <-.
      cbn [map fst]. f_equal; [|apply (IH _ _ _ _ E)].
      apply (proj1 (load_sources_frame _ _ _ _ _ _ E)). apply write_file_same.
Qed.

(** With every file in the directory the loop reads them and asks nothing
    of the network. *)
Lemma load_sources_warm web urls dir l :
  map dir (map fst urls) = map Some l ->
  load_sources web urls dir = (Some l, dir, []).
Proof.
  revert l. induction urls as [|[fname url] rest IH]; intros l H.
  - destruct l; [reflexivity | discriminate].
  - destruct l as [|t l]; [discriminate|]. cbn [map fst] in H.
    injection H as Hf Hr. cbn [load_sources]. rewrite Hf, (IH l Hr). reflexivity.
Qed.

(** The loop fails exactly when a missing file cannot be downloaded. *)
Lemma load_sources_fails web urls : forall dir,
  NoDup (map fst urls) ->
  (fst (fst (load_sources web urls dir)) = None
   <-> exists f u, In (f, u) urls /\ dir f = None /\ web u = None).
Proof.
  induction urls as [|[fname url] rest IH]; intros dir Hnd.
  - cbn. split; [discriminate | intros (f & u & [] & _)].
  - cbn [map fst] in Hnd. apply NoDup_cons_iff in Hnd. destruct Hnd as [Hnot Hnd].
    cbn [load_sources]. destruct (dir fname) as [text|] eqn:Hc.
    + specialize (IH dir Hnd).
      destruct (load_sources web rest dir) as [[s1 d1] r1]. cbn [fst] in *.
      assert (Ho : option_map (cons text) s1 = None <-> s1 = None)
        by (destruct s1; cbn; split; congruence).
      rewrite Ho, IH. split.
      * intros (f & u & Hin & K). exists f, u. split; [right; exact Hin | exact K].
      * intros (f & u & [Heq | Hin] & Hf & Hu).
        -- injection Heq as <- <-. congruence.
        -- exists f, u. auto.
    + destruct (web url) as [text|] eqn:Hw.
      * specialize (IH (write_file dir fname text) Hnd).
        destruct (load_sources web rest (write_file dir fname text)) as [[s1 d1] r1].
        cbn [fst] in *.
        assert (Ho : option_map (cons text) s1 = None <-> s1 = None)
          by (destruct s1; cbn; split; congruence).
        rewrite Ho, IH. split.
        -- intros (f & u & Hin & Hf & Hu). exists f, u. split; [right; exact Hin|].
           split; [|exact Hu]. unfold write_file in Hf.
           destruct (String.eqb f fname); [discriminate | exact Hf].
        -- intros (f & u & [Heq | Hin] & Hf & Hu).
           ++ injection Heq as <- <-. congruence.
           ++ exists f, u. split; [exact Hin|]. split; [|exact Hu].
              rewrite write_file_other; [exact Hf|]. intros ->. apply Hnot.
              apply (in_map fst) in Hin. exact Hin.
      * cbn [fst]. split; [|reflexivity]. intros _.
        exists fname, url. split; [left; reflexivity | split; assumption].
Qed.

(** X13. [get_chartjs_inline] never changes a file that is already in the
    directory nor any file outside its list, and asks the network only for
    a file of the list that is missing.  It fails exactly when a missing
    file cannot be downloaded.  When it returns, the two texts are the
    contents of the two files in the directory, and a second call returns
    the same texts without any request, whatever the network answers. *)
Theorem get_chartjs_inline_cache (web : Web) (dir : Dir) :
  let '(res, dir', requests) := get_chartjs_inline web dir in
  (forall f t, dir f = Some t -> dir' f = Some t) /\
  (forall f, ~ In f (map fst CHARTJS_URLS) -> dir' f = dir f) /\
  (forall u, In u requests -> exists f, In (f, u) CHARTJS_URLS /\ dir f = None) /\
  (res = None <-> exists f u, In (f, u) CHARTJS_URLS /\ dir f = None /\ web u = None) /\
  (forall s0 s1, res = Some (s0, s1) ->
     map dir' (map fst CHARTJS_URLS) = [Some s0; Some s1] /\
     forall web', get_chartjs_inline web' dir' = (Some (s0, s1), dir', [])).
Proof.
  unfold get_chartjs_inline.
  pose proof (load_sources_fails web CHARTJS_URLS dir) as Hfail.
  destruct (load_sources web CHARTJS_URLS dir) as [[sources dir'] requests] eqn:E.
  destruct (load_sources_frame _ _ _ _ _ _ E) as (K1 & K2 & K3).
  split; [exact K1|]. split; [exact K2|]. split; [exact K3|].
  assert (Hlen : forall l, sources = Some l -> length l = 2%nat).
  { intros l ->. apply load_sources_cached in E.
    apply (f_equal (@length _)) in E. rewrite !length_map in E. symmetry. exact E. }
  split.
  - rewrite <- Hfail.
    + cbn [fst]. destruct sources as [l|]; [|tauto].
      specialize (Hlen l eq_refl). destruct l as [|a [|b l]]; try discriminate.
      split; discriminate.
    + repeat constructor; cbn; intuition discriminate.
  - intros s0 s1 Hres. destruct sources as [l|]; [|discriminate].
    specialize (Hlen l eq_refl). destruct l as [|a [|b [|c l]]]; try discriminate.
    injection Hres as -> ->.
    pose proof (load_sources_cached _ _ _ _ _ _ E) as Hc. split; [exact Hc|].
    intros web'. rewrite (load_sources_warm web' CHARTJS_URLS dir' [s0; s1] Hc). reflexivity.
Qed.

(** ** Referral codes *)

Lemma string_of_list_ascii_length l :
  String.length (string_of_list_ascii l) = length l.
Proof. induction l as [|a l IH]; cbn; [|rewrite IH]; reflexivity. Qed.

Lemma chars_length : length chars = 36%nat.
Proof. reflexivity. Qed.

Lemma chars_NoDup : NoDup chars.
Proof.
  assert (H : forall l : list ascii,
             forallb (fun p => negb (existsb (Ascii.eqb (fst p)) (snd p)))
                     ((fix tails (l : list ascii) :=
                         match l with [] => [] | a :: t => (a, t) :: tails t end) l) = true ->
             NoDup l).
  { induction l as [|a l IH]; intros H; [constructor|].
    cbn [forallb fst snd] in H. apply andb_true_iff in H. destruct H as [Ha Hl].
    constructor; [|apply IH; exact Hl].
    intros Hin. apply negb_true_iff in Ha.
    assert (existsb (Ascii.eqb a) l = true)
      by (apply existsb_exists; exists a; split; [exact Hin | apply Ascii.eqb_refl]).
    congruence. }
  apply H. vm_compute. reflexivity.
Qed.

Lemma choice_In r : In (choice chars r) chars.
Proof.
  unfold choice. apply nth_In. rewrite chars_length. apply Nat.mod_upper_bound. discriminate.
Qed.

Lemma choice_inj r r' :
  choice chars r = choice chars r' -> (r mod 36 = r' mod 36)%nat.
Proof.
  unfold choice. rewrite chars_length. intros H.
  apply (proj1 (NoDup_nth chars "000"%char) chars_NoDup);
    try (rewrite chars_length; apply Nat.mod_upper_bound; discriminate).
  exact H.
Qed.

Lemma string_of_list_ascii_inj l l' :
  string_of_list_ascii l = string_of_list_ascii l' -> l = l'.
Proof.
  intros H. apply (f_equal list_ascii_of_string) in H.
  rewrite !list_ascii_of_string_of_list_ascii in H. exact H.
Qed.

Lemma map_seq_ext_inv {A : Type} (f g : nat -> A) n s :
  map f (seq s n) = map g (seq s n) -> forall i, (s <= i < s + n)%nat -> f i = g i.
Proof.
  revert s. induction n as [|n IH]; intros s H i Hi; [lia|].
  cbn [seq map] in H. injection H as H0 H.
  destruct (Nat.eq_dec i s) as [->|Hne]; [exact H0|].
  apply (IH (S s) H). lia.
Qed.

(** X14. A referral code is ['EFP-'] followed by [length] characters, each
    an upper-case letter or a digit drawn by [secrets.choice]; it fits the
    12 characters of the [referral_code] column exactly when [length] is at
    most 8; and two runs give the same code exactly when all their draws
    are equal modulo 36, the characters of [chars] being distinct. *)
Theorem referral_code_format (rng : nat -> nat) (length : nat) :
  let code := generate_referral_code rng length in
  String.length code = (4 + length)%nat /\
  String.substring 0 4 code = "EFP-"%string /\
  (forall i, (i < length)%nat ->
     exists c, String.get (4 + i) code = Some c /\ c = choice chars (rng i) /\ In c chars) /\
  ((String.length code <= 12)%nat <-> (length <= 8)%nat) /\
  (forall rng', generate_referral_code rng' length = code <->
     forall i, (i < length)%nat -> (rng' i mod 36 = rng i mod 36)%nat).
Proof.
  intros code. unfold code, generate_referral_code.
  set (l := map (fun i => choice chars (rng i)) (seq 0 length)).
  assert (Hl : List.length l = length) by (unfold l; rewrite length_map, length_seq; reflexivity).
  assert (Hlen : String.length ("EFP-" ++ string_of_list_ascii l) = (4 + length)%nat).
  { cbn [String.append String.length]. rewrite string_of_list_ascii_length, Hl. reflexivity. }
  split; [exact Hlen|]. split.
  - cbn [String.append String.substring]. destruct (string_of_list_ascii l); reflexivity.
  - split; [|split].
    + intros i Hi. exists (choice chars (rng i)). split; [|split; [reflexivity | apply choice_In]].
      change (4 + i)%nat with (S (S (S (S i)))). cbn [String.append String.get].
      assert (G : forall (m : list ascii) j d, (j < List.length m)%nat ->
                    String.get j (string_of_list_ascii m) = Some (nth j m d)).
      { induction m as [|a m IH]; intros j d Hj; [cbn in Hj; lia|].
        destruct j as [|j]; [reflexivity|]. cbn. apply IH. cbn in Hj. lia. }
      rewrite (G l i "000"%char) by lia. f_equal.
      unfold l. rewrite (nth_indep _ _ (choice chars (rng 0%nat)))
        by (rewrite length_map, length_seq; exact Hi).
      rewrite (map_nth (fun i => choice chars (rng i))). rewrite seq_nth by exact Hi. reflexivity.
    + rewrite Hlen. lia.
    + intros rng'. split.
      * intros H i Hi. cbn [String.append] in H. injection H as H.
        apply string_of_list_ascii_inj in H. unfold l in H.
        apply choice_inj. apply (map_seq_ext_inv _ _ _ _ H). lia.
      * intros H. f_equal. f_equal. unfold l. apply map_ext_in. intros i Hi.
        apply in_seq in Hi. unfold choice. rewrite chars_length. rewrite H by lia. reflexivity.
Qed.

(** ** The WSGI entry point *)

Lemma existsb_path_In l : existsb (String.eqb path) l = true <-> In path l.
Proof.
  rewrite existsb_exists. split.
  - intros (x & Hin & Hx). apply String.eqb_eq in Hx. subst x. exact Hin.
  - intros H. exists path. split; [exact H | apply String.eqb_refl].
Qed.

(** X15. After the entry point has run, the project directory is on
    [sys.path], at the front when it was added and without a second copy
    when it was there, and the former entries are kept; a [SECRET_KEY] of
    the environment is never replaced, a missing one is set to the
    placeholder, and no other variable changes.  Running the module a
    second time changes nothing. *)
Theorem wsgi_setup (p : Process) :
  let q := wsgi p in
  In path (sys_path q) /\
  (In path (sys_path p) -> sys_path q = sys_path p) /\
  (~ In path (sys_path p) -> sys_path q = path :: sys_path p) /\
  (forall d, In d (sys_path p) -> In d (sys_path q)) /\
  (forall v, environ p "SECRET_KEY"%string = Some v -> environ q "SECRET_KEY"%string = Some v) /\
  (environ p "SECRET_KEY"%string = None ->
     environ q "SECRET_KEY"%string = Some "CHANGE-ME-TO-A-RANDOM-SECRET"%string) /\
  (forall k, k <> "SECRET_KEY"%string -> environ q k = environ p k) /\
  sys_path (wsgi q) = sys_path q /\
  (forall k, environ (wsgi q) k = environ q k).
Proof.
  intros q. unfold q, wsgi. cbn [sys_path environ].
  destruct (existsb (String.eqb path) (sys_path p)) eqn:Ep.
  - pose proof (proj1 (existsb_path_In _) Ep) as Hin. rewrite Ep.
    split; [exact Hin|]. split; [reflexivity|]. split; [intros H; contradiction|].
    split; [auto|].
    destruct (environ p "SECRET_KEY"%string) as [v|] eqn:Es.
    + rewrite Es. repeat split; auto. discriminate.
    + cbn [String.eqb Ascii.eqb Bool.eqb]. cbn.
      repeat split; try discriminate; auto.
      intros k Hk. destruct (String.eqb_spec k "SECRET_KEY"); [contradiction | reflexivity].
  - assert (Hnot : ~ In path (sys_path p)).
    { intros H. apply existsb_path_In in H. congruence. }
    cbn [existsb]. rewrite String.eqb_refl. cbn [orb].
    split; [left; reflexivity|]. split; [intros H; contradiction|]. split; [reflexivity|].
    split; [intros d Hd; right; exact Hd|].
    destruct (environ p "SECRET_KEY"%string) as [v|] eqn:Es.
    + rewrite Es. repeat split; auto. discriminate.
    + cbn.
      repeat split; try discriminate; auto.
      intros k Hk. destruct (String.eqb_spec k "SECRET_KEY"); [contradiction | reflexivity].
Qed.

(** ** The benchmark, cut to the period of the strategy *)

Lemma sorted_first_last (t : Series) : forall (a p : Z * fl),
  StronglySorted Z.lt (index (a :: t)) -> In p (a :: t) ->
  (fst a <= fst p <= fst (last t a))%Z.
Proof.
  induction t as [|b t IH]; intros a p Hs Hin.
  - destruct Hin as [<- | []]. cbn. lia.
  - unfold index in Hs. cbn [map] in Hs. apply StronglySorted_inv in Hs.
    destruct Hs as [Hs Ha]. apply Forall_inv in Ha as Hab.
    assert (Hl : (fst b <= fst (last t b))%Z)
      by (apply (IH b b Hs); left; reflexivity).
    assert (E : last (b :: t) a = last t b).
    { clear. revert a b. induction t as [|c t IHt]; intros a b; [reflexivity|].
      change (last (b :: c :: t) a) with (last (c :: t) a).
      rewrite (IHt a c), (IHt b c). reflexivity. }
    rewrite E. destruct Hin as [<- | Hin]; [lia|].
    specialize (IH b p Hs Hin). lia.
Qed.

Lemma notna_true p : notna p = true <-> snd p <> NaN.
Proof.
  unfold notna. destruct (snd p); cbn; split; congruence.
Qed.

(** X16. [nifty] raises [IndexError] exactly when the strategy has no
    value.  Otherwise it holds exactly the benchmark rows that are not NaN
    and dated from the first to the last date of the strategy, with dates
    as increasing as the table's; and when the benchmark column is the
    strategy column, on increasing dates, it is the strategy series itself.
    Both scripts compute it alike. *)
Theorem nifty_within_strategy_period (curves : Curves) :
  match SiteData.nifty curves with
  | inl e => e = IndexError /\ SiteData.wf curves = []
  | inr nifty =>
      exists d0 v0 t, SiteData.wf curves = (d0, v0) :: t /\
        let d1 := fst (last t (d0, v0)) in
        (forall p, In p nifty <->
           In p (NIFTY_100pct curves) /\ (d0 <= fst p <= d1)%Z /\ snd p <> NaN) /\
        (StronglySorted Z.lt (index (NIFTY_100pct curves)) ->
         StronglySorted Z.lt (index nifty)) /\
        (NIFTY_100pct curves = WalkForward curves ->
         StronglySorted Z.lt (index (WalkForward curves)) ->
         nifty = SiteData.wf curves)
  end /\
  Landing.nifty curves = SiteData.nifty curves.
Proof.
  split; [|reflexivity].
  unfold SiteData.nifty. destruct (SiteData.wf curves) as [|[d0 v0] t] eqn:Ew.
  - cbn. split; reflexivity.
  - cbn [first_row last_row bind ret fst]. exists d0, v0, t. split; [reflexivity|].
    cbv zeta. unfold loc_range. rewrite dropna_filter. split; [|split].
    + intros p. rewrite filter_In, !andb_true_iff, Z.leb_le, Z.leb_le, notna_true. tauto.
    + intros Hs. apply StronglySorted_map_fst_filter. exact Hs.
    + intros Hcol Hs. rewrite Hcol, <- Ew. unfold SiteData.wf, dropna.
      apply filter_ext_in. intros p Hp.
      destruct (notna p) eqn:Hn; [|apply andb_false_r].
      rewrite andb_true_r.
      assert (Hin : In p ((d0, v0) :: t)).
      { rewrite <- Ew. unfold SiteData.wf, dropna. apply filter_In. split; assumption. }
      assert (Hsw : StronglySorted Z.lt (index ((d0, v0) :: t))).
      { rewrite <- Ew. unfold SiteData.wf, dropna. apply StronglySorted_map_fst_filter. exact Hs. }
      pose proof (sorted_first_last _ _ _ Hsw Hin) as Hb. cbn [fst] in Hb.
      apply andb_true_iff. rewrite !Z.leb_le. exact Hb.
Qed.

(** ** Alpha and the two total returns *)

Lemma multiple_fin_series d0 x0 t :
  x0 <> 0 ->
  SiteData.multiple (fin_series ((d0, x0) :: t)) = ret (Fin (snd (last t (d0, x0)) / x0)).
Proof.
  intros H0. unfold SiteData.multiple.
  change (fin_series ((d0, x0) :: t)) with ((d0, Fin x0) :: fin_series t).
  cbn [first_row last_row bind ret]. rewrite fin_series_last_row. cbn [fst snd].
  rewrite fdiv_Fin by exact H0. reflexivity.
Qed.

(** X17. For a strategy and a benchmark that start and end on positive
    values, over a period of at least 365 days: alpha is the difference of
    two finite growth rates; it is not negative when the strategy's total
    return multiple is at least the benchmark's, not positive when it is at
    most the benchmark's, and 0 when the two multiples are equal.  The
    landing script computes the same two rates. *)
Theorem alpha_sign_follows_total_return (d0 : Z) (x0 : R) (t : list (Z * R))
        (e0 : Z) (y0 : R) (u : list (Z * R)) :
  (365 <= fst (last t (d0, x0)) - d0)%Z ->
  0 < x0 -> 0 < snd (last t (d0, x0)) ->
  0 < y0 -> 0 < snd (last u (e0, y0)) ->
  let wf := fin_series ((d0, x0) :: t) in
  let nifty := fin_series ((e0, y0) :: u) in
  exists c n m k,
    SiteData.cagr wf = ret (Fin c) /\
    SiteData.nifty_cagr wf nifty = ret (Fin n) /\
    SiteData.multiple wf = ret (Fin m) /\
    SiteData.nifty_multiple nifty = ret (Fin k) /\
    SiteData.alpha (Fin c) (Fin n) = Fin (c - n) /\
    (k <= m -> 0 <= c - n) /\
    (m <= k -> c - n <= 0) /\
    (m = k -> c - n = 0) /\
    Landing.cagr wf = ret (Fin c) /\
    Landing.nifty_cagr wf nifty = ret (Fin n).
Proof.
  intros Hd Hx0 Hx1 Hy0 Hy1 wf nifty.
  set (m := snd (last t (d0, x0)) / x0).
  set (k := snd (last u (e0, y0)) / y0).
  set (e := 365.25 / IZR (fst (last t (d0, x0)) - d0)).
  assert (Hm : 0 < m) by (apply Rdiv_lt_0_compat; assumption).
  assert (Hk : 0 < k) by (apply Rdiv_lt_0_compat; assumption).
  assert (He : 0 < e).
  { apply Rdiv_lt_0_compat; [lra|]. apply IZR_lt. lia. }
  assert (Hc : SiteData.cagr wf = ret (Fin (Rpower m e - 1)))
    by (apply cagr_fin_series; [lia | lra | exact Hm]).
  assert (Hn : SiteData.nifty_cagr wf nifty = ret (Fin (Rpower k e - 1)))
    by (apply nifty_cagr_fin_series; [lia | lra | exact Hk]).
  exists (Rpower m e - 1), (Rpower k e - 1), m, k.
  split; [exact Hc|]. split; [exact Hn|].
  split; [apply multiple_fin_series; lra|].
  split; [apply (multiple_fin_series e0 y0 u); lra|].
  split; [unfold SiteData.alpha; rewrite fsub_Fin; reflexivity|].
  split; [|split; [|split; [|split; [exact Hc | exact Hn]]]].
  - intros H. pose proof (Rpower_le_compat_l k m e). lra.
  - intros H. pose proof (Rpower_le_compat_l m k e). lra.
  - intros ->. lra.
Qed.

Lemma alpha_sign_follows_total_return_witness :
  exists c n,
    SiteData.cagr (fin_series [(0%Z, 100); (730%Z, 150)]) = ret (Fin c) /\
    SiteData.nifty_cagr (fin_series [(0%Z, 100); (730%Z, 150)])
                        (fin_series [(0%Z, 50); (730%Z, 60)]) = ret (Fin n) /\
    0 <= c - n.
Proof.
  assert (H1 : (365 <= fst (last [(730%Z, 150)] (0%Z, 100)) - 0)%Z) by (cbn; lia).
  assert (H2 : 0 < 100) by lra.
  assert (H3 : 0 < snd (last [(730%Z, 150)] (0%Z, 100))) by (cbn; lra).
  assert (H4 : 0 < 50) by lra.
  assert (H5 : 0 < snd (last [(730%Z, 60)] (0%Z, 50))) by (cbn; lra).
  destruct (alpha_sign_follows_total_return 0 100 [(730%Z, 150)] 0 50 [(730%Z, 60)]
              H1 H2 H3 H4 H5)
    as (c & n & m & k & Hc & Hn & Hm & Hk & _ & Hs & _).
  exists c, n. split; [exact Hc|]. split; [exact Hn|].
  apply Hs.
  rewrite multiple_fin_series in Hm by lra.
  change (SiteData.multiple (fin_series [(0%Z, 50); (730%Z, 60)]) = ret (Fin k)) in Hk.
  rewrite (multiple_fin_series 0 50 [(730%Z, 60)]) in Hk by lra.
  injection Hm as <-. injection Hk as <-. cbn. lra.
Defined.

(** ** Year-end and month-end values *)








(** ** The error of rounding *)

Lemma rint_error x : Rabs (IZR (rint x) - x) <= 1 / 2.
Proof.
  destruct (Int_part_bounds x) as [Hf Hf']. unfold rint.
  destruct (Rlt_dec (x - IZR (Int_part x)) (1 / 2)) as [H|H].
  - rewrite (Rltb_true _ _ H). apply Rabs_le. lra.
  - rewrite (Rltb_false _ _ H).
    destruct (Rlt_dec (1 / 2) (x - IZR (Int_part x))) as [H'|H'].
    + rewrite (Rltb_true _ _ H'). rewrite plus_IZR. apply Rabs_le. lra.
    + rewrite (Rltb_false _ _ H').
      destruct (Z.even (Int_part x)); [|rewrite plus_IZR]; apply Rabs_le; lra.
Qed.

Lemma round_error x n :
  exists v k, round (Fin x) n = Fin v /\ v = IZR k / 10 ^ n /\
              Rabs (v - x) <= 1 / 2 / 10 ^ n.
Proof.
  assert (Hp : 0 < 10 ^ n) by (apply pow_lt; lra).
  exists (IZR (rint (x * 10 ^ n)) / 10 ^ n), (rint (x * 10 ^ n)).
  split; [reflexivity|]. split; [reflexivity|].
  replace (IZR (rint (x * 10 ^ n)) / 10 ^ n - x)
    with ((IZR (rint (x * 10 ^ n)) - x * 10 ^ n) / 10 ^ n) by (field; lra).
  unfold Rdiv at 1. rewrite Rabs_mult, (Rabs_right (/ 10 ^ n)).
  - apply Rmult_le_compat_r; [apply Rlt_le, Rinv_0_lt_compat; exact Hp | apply rint_error].
  - apply Rle_ge, Rlt_le, Rinv_0_lt_compat. exact Hp.
Qed.

Lemma round_rounded x n : rounded n x (round (Fin x) n).
Proof. apply round_error. Qed.




(** ** The win rate and the first weekly point, as they are reported *)

Lemma Rabs_le_bounds x a : Rabs x <= a -> - a <= x <= a.
Proof.
  intros H. pose proof (Rle_abs x) as H1. pose proof (Rle_abs (- x)) as H2.
  rewrite Rabs_Ropp in H2. lra.
Qed.

(** An integer within a half of an integer is that integer. *)
Lemma rounded_0_IZR (m : Z) (out : fl) : rounded 0 (IZR m) out -> out = Fin (IZR m).
Proof.
  intros (v & k & -> & -> & Hb). f_equal.
  replace (IZR k / 10 ^ 0) with (IZR k) in * by (simpl; field).
  replace (1 / 2 / 10 ^ 0) with (1 / 2) in Hb by (simpl; field).
  apply Rabs_le_bounds in Hb. rewrite <- minus_IZR in Hb.
  assert (H1 : (-1 < k - m)%Z) by (apply lt_IZR; lra).
  assert (H2 : (k - m < 1)%Z) by (apply lt_IZR; lra).
  f_equal. lia.
Qed.

(** C8. [win_rate] counts, among the months of the strategy's monthly
    returns that are also months of the benchmark's monthly returns, those
    in which the strategy's own return is strictly positive.  For finite
    returns [rows] on those months, the fraction
    [(monthly_wf.loc[common_m] > 0).mean()] is the number of rows with a
    return above 0 over the number of rows, and [win_rate] is that fraction
    in percent rounded to an integer: a whole number within 0.5 of it.  The
    benchmark enters by the months it has only: another benchmark with the
    same months gives the same win rate.  Both scripts compute it the same
    way. *)
Theorem win_rate_positive_months (pad : bool) (wf nifty : Series) (rows : list (Z * R)) :
  filter (fun p => existsb (Z.eqb (fst p)) (index (SiteData.monthly pad nifty)))
         (SiteData.monthly pad wf) = fin_series rows ->
  rows <> [] ->
  let wins := filter (fun p : Z * R => Rltb 0 (snd p)) rows in
  loc (SiteData.monthly pad wf) (SiteData.common_m pad wf nifty) = fin_series rows /\
  share_positive (loc (SiteData.monthly pad wf) (SiteData.common_m pad wf nifty))
  = Fin (INR (length wins) / INR (length rows)) /\
  rounded 0 (INR (length wins) / INR (length rows) * 100) (SiteData.win_rate pad wf nifty) /\
  (forall nifty' : Series,
     index (SiteData.monthly pad nifty') = index (SiteData.monthly pad nifty) ->
     SiteData.win_rate pad wf nifty' = SiteData.win_rate pad wf nifty) /\
  Landing.win_rate pad wf nifty = SiteData.win_rate pad wf nifty.
Proof.
  intros Hrows Hne wins.
  assert (Hloc : loc (SiteData.monthly pad wf) (SiteData.common_m pad wf nifty)
                 = fin_series rows).
  { unfold SiteData.common_m. rewrite loc_intersection. exact Hrows. }
  split; [exact Hloc|]. split; [|split; [|split; [|reflexivity]]].
  - rewrite Hloc. apply share_positive_fin_series. exact Hne.
  - unfold SiteData.win_rate. rewrite Hloc, share_positive_fin_series by exact Hne.
    cbn [fmul]. apply round_rounded.
  - intros nifty' Hidx. unfold SiteData.win_rate, SiteData.common_m.
    rewrite Hidx. reflexivity.
Qed.

Lemma win_rate_positive_months_witness :
  let wf := fin_series (three_month_ends 100 110 99) in
  let nifty := fin_series (three_month_ends 50 40 30) in
  let rows := [(24289%Z, 110 / 100 - 1); (24290%Z, 99 / 110 - 1)] in
  (filter (fun p => existsb (Z.eqb (fst p)) (index (SiteData.monthly true nifty)))
          (SiteData.monthly true wf) = fin_series rows /\
   rows <> []) /\
  SiteData.monthly true nifty = fin_series [(24289%Z, 40 / 50 - 1); (24290%Z, 30 / 40 - 1)] /\
  SiteData.win_rate true wf nifty = Fin 50.
Proof.
  intros wf nifty rows.
  assert (Hw : SiteData.monthly true wf = fin_series rows)
    by (apply monthly_three_month_ends; lra).
  assert (Hn : SiteData.monthly true nifty
               = fin_series [(24289%Z, 40 / 50 - 1); (24290%Z, 30 / 40 - 1)])
    by (apply monthly_three_month_ends; lra).
  assert (Hrows : filter (fun p => existsb (Z.eqb (fst p)) (index (SiteData.monthly true nifty)))
                         (SiteData.monthly true wf) = fin_series rows).
  { rewrite Hw, Hn. reflexivity. }
  assert (Hne : rows <> []) by discriminate.
  split; [split; [exact Hrows | exact Hne]|]. split; [exact Hn|].
  pose proof (proj1 (proj2 (proj2 (win_rate_positive_months true wf nifty rows Hrows Hne))))
    as Hr.
  unfold rows in Hr. cbn [filter snd] in Hr.
  rewrite (Rltb_true 0 (110 / 100 - 1)) in Hr by lra.
  rewrite (Rltb_false 0 (99 / 110 - 1)) in Hr by lra.
  cbn [length] in Hr. replace (INR 1 / INR 2 * 100) with (IZR 50) in Hr by (simpl; lra).
  apply rounded_0_IZR. exact Hr.
Defined.



(** ** beta on the common months *)











(** ** The guard of the Sharpe ratio *)






(** ** alpha in the output of the scripts *)











(** ** A table within one month *)

Lemma monthly_one_month pad (a b : R) :
  SiteData.monthly pad [(days_from_civil 2024 1 1, Fin a); (days_from_civil 2024 1 2, Fin b)]
  = [].
Proof. destruct pad; vm_compute; reflexivity. Qed.

Lemma win_rate_one_month pad (a b c d : R) :
  SiteData.win_rate pad
    [(days_from_civil 2024 1 1, Fin a); (days_from_civil 2024 1 2, Fin b)]
    [(days_from_civil 2024 1 1, Fin c); (days_from_civil 2024 1 2, Fin d)] = NaN.
Proof.
  unfold SiteData.win_rate, SiteData.common_m. rewrite !monthly_one_month.
  cbn [index map intersection loc filter]. unfold share_positive, count.
  cbn [values map filter length INR]. eval_fl. reflexivity.
Qed.

(** C10. A table on which the two scripts differ: two trading days of
    one month, the strategy at 100 and 110, the benchmark at 50 and 55.
    There is no monthly return, so the win rate is the mean of no value,
    NaN.  [generate] stops at [int(win_rate)] with a ValueError and
    produces no metric at all; [generate_landing], which computes the same
    win rate and does not convert it, returns and renders its metrics. *)
Theorem generate_raises_where_landing_returns (pad : bool) :
  SiteData.wf one_month_table
  = [(days_from_civil 2024 1 1, Fin 100); (days_from_civil 2024 1 2, Fin 110)] /\
  SiteData.nifty one_month_table
  = ret [(days_from_civil 2024 1 1, Fin 50); (days_from_civil 2024 1 2, Fin 55)] /\
  SiteData.win_rate pad (SiteData.wf one_month_table)
    [(days_from_civil 2024 1 1, Fin 50); (days_from_civil 2024 1 2, Fin 55)] = NaN /\
  SiteData.generate pad one_month_table = raise ValueError /\
  exists ld,
    Landing.generate_landing pad one_month_table = ret ld /\
    Landing.landing_win_rate ld = NaN.
Proof.
  assert (Hwf : SiteData.wf one_month_table
                = [(days_from_civil 2024 1 1, Fin 100); (days_from_civil 2024 1 2, Fin 110)])
    by reflexivity.
  assert (Hnf : SiteData.nifty one_month_table
                = ret [(days_from_civil 2024 1 1, Fin 50); (days_from_civil 2024 1 2, Fin 55)])
    by reflexivity.
  assert (Hw : SiteData.win_rate pad (SiteData.wf one_month_table)
                 [(days_from_civil 2024 1 1, Fin 50); (days_from_civil 2024 1 2, Fin 55)] = NaN)
    by (rewrite Hwf; apply win_rate_one_month).
  split; [exact Hwf|]. split; [exact Hnf|]. split; [exact Hw|].
  assert (Hd : (fst (last [(days_from_civil 2024 1 2, Fin 110)] (days_from_civil 2024 1 1, Fin 100))
                =? fst (days_from_civil 2024 1 1, Fin 100))%Z = false) by reflexivity.
  split.
  - unfold SiteData.generate. rewrite Hnf. cbn [bind ret].
    rewrite Hw. rewrite Hwf.
    rewrite cagr_cases, nifty_cagr_cases. unfold SiteData.years, SiteData.multiple.
    cbn [first_row last_row bind ret]. cbv zeta. rewrite Hd. cbn [bind ret py_int raise].
    reflexivity.
  - unfold Landing.generate_landing.
    change (Landing.nifty one_month_table) with (SiteData.nifty one_month_table).
    change (Landing.wf one_month_table) with (SiteData.wf one_month_table).
    rewrite Hnf, Hwf. cbn [bind ret].
    change Landing.cagr with SiteData.cagr. change Landing.nifty_cagr with SiteData.nifty_cagr.
    rewrite cagr_cases, nifty_cagr_cases. unfold Landing.years, Landing.multiple, Landing.norm.
    cbn [first_row last_row bind ret]. cbv zeta. rewrite Hd. cbn [bind ret].
    eexists. split; [reflexivity|]. cbn [Landing.landing_win_rate].
    change Landing.win_rate with SiteData.win_rate. apply win_rate_one_month.
Qed.
